(** * bi_utils: the MERGE synthesizer and the deployment gate

    A shallow embedding of [src/bi_utils/utils.py]: [set_logging],
    [deployment], [merge_tmp_into_target_tbl], [return_exa_conn],
    [print_merge_query], the two script runners, [send_slack_alert] and the
    helpers [parse_timestamp], [check_for_key] and [extract_key], with the
    parts of Python's [str] they rely on ([split], [strip], [join], slicing,
    [str.format] with keyword arguments). *)

From Stdlib Require Import Ascii String DecimalString.
From Stdlib Require Import List NArith ZArith Bool Lia.
Import ListNotations.

Set Warnings "-notation-for-abbreviation".

Local Open Scope N_scope.
Local Open Scope list_scope.

(** ** Python strings *)

(** A Python [str] is a sequence of Unicode code points. *)
Definition str := list N.

Definition dquote : N := 34.
Definition apostrophe : N := 39.
Definition comma : N := 44.
Definition lbrace : N := 123.
Definition rbrace : N := 125.

(** A literal of the source without double quotes. *)
Definition lit (s : String.string) : str :=
  map N_of_ascii (String.list_ascii_of_string s).
Arguments lit s%_string.

(** A literal of the source with double quotes: every apostrophe of the argument
    stands for a double quote (no literal written this way holds an
    apostrophe of its own). *)
Definition qlit (s : String.string) : str :=
  map (fun c => if c =? apostrophe then dquote else c) (lit s).
Arguments qlit s%_string.

Definition str_eq_dec : forall a b : str, {a = b} + {a <> b} :=
  list_eq_dec N.eq_dec.

Definition str_eqb (a b : str) : bool :=
  if str_eq_dec a b then true else false.

(** [x in l] on a list of strings. *)
Definition py_in (x : str) (l : list str) : bool := existsb (str_eqb x) l.

(** *** [str.strip()] *)

(** The code points [str.strip()] removes (CPython's [_PyUnicode_IsWhitespace]). *)
Definition is_space (c : N) : bool :=
  ((9 <=? c) && (c <=? 13)) || ((28 <=? c) && (c <=? 32))
  || (c =? 133) || (c =? 160) || (c =? 5760)
  || ((8192 <=? c) && (c <=? 8202))
  || (c =? 8232) || (c =? 8233) || (c =? 8239) || (c =? 8287) || (c =? 12288).

Fixpoint lstrip (s : str) : str :=
  match s with
  | [] => []
  | c :: s' => if is_space c then lstrip s' else s
  end.

Definition rstrip (s : str) : str := rev (lstrip (rev s)).

Definition strip (s : str) : str := rstrip (lstrip s).

(** *** [str.split(sep)] for a one-character separator *)

Fixpoint split (sep : N) (s : str) : list str :=
  match s with
  | [] => [[]]
  | c :: s' =>
      if c =? sep then [] :: split sep s'
      else match split sep s' with
           | [] => [[c]]
           | w :: ws => (c :: w) :: ws
           end
  end.

(** *** [sep.join(xs)] *)

Fixpoint join (sep : str) (xs : list str) : str :=
  match xs with
  | [] => []
  | [x] => x
  | x :: xs' => x ++ sep ++ join sep xs'
  end.

(** *** The slice [s[:-n]] *)

Definition drop_last (n : nat) (s : str) : str :=
  firstn (length s - n) s.

(** ** Outcomes and exceptions *)

Inductive exn : Type :=
| SystemExit                (* raised by [exit()]; not an [Exception] *)
| FormatError               (* the ValueError, KeyError or IndexError of [str.format] *)
| LookupError               (* the KeyError of a failed dataframe lookup *)
| ExaError (msg : str).     (* whatever the database driver raises *)

(** [isinstance(e, Exception)] *)
Definition is_Exception (e : exn) : bool :=
  match e with
  | SystemExit => false
  | _ => true
  end.

(** [str(e)]; only driver errors carry a text here. *)
Definition str_of_exn (e : exn) : str :=
  match e with
  | ExaError msg => msg
  | _ => []
  end.

(** [Unmodelled] marks a replacement field whose syntax (attribute or index
    access, conversion, format specification, nested brace) lies outside the
    fragment of [str.format] described here. *)
Inductive outcome (A : Type) : Type :=
| Ok (a : A)
| Raise (e : exn)
| Unmodelled.
Arguments Ok {A} a.
Arguments Raise {A} e.
Arguments Unmodelled {A}.

(** ** [template.format(name=value, ...)] *)

(** Where the scanner stands: in literal text, just after a [{], just after a
    [}], or inside a replacement field whose name so far is [name]. *)
Inductive scan : Type :=
| Text
| AfterOpen
| AfterClose
| Field (name : str).

Definition emit (pre : str) (r : outcome str) : outcome str :=
  match r with
  | Ok s => Ok (pre ++ s)
  | Raise e => Raise e
  | Unmodelled => Unmodelled
  end.

Fixpoint lookup_kw (name : str) (kw : list (str * str)) : option str :=
  match kw with
  | [] => None
  | (k, v) :: kw' => if str_eqb name k then Some v else lookup_kw name kw'
  end.

(** [.] [[] [!] [:] and [{] inside a replacement field. *)
Definition field_special (c : N) : bool :=
  (c =? 46) || (c =? 91) || (c =? 33) || (c =? 58) || (c =? lbrace).

(** With keyword arguments only, an empty or numeric field name has no
    positional argument to refer to and an unknown name no keyword: both
    raise.  [{{] and [}}] are the escapes; a lone [}] and an unfinished field
    raise. *)
Fixpoint format_scan (kw : list (str * str)) (st : scan) (s : str) : outcome str :=
  match s with
  | [] => match st with
          | Text => Ok []
          | _ => Raise FormatError
          end
  | c :: s' =>
      let in_field (name : str) :=
        if c =? rbrace then
          match lookup_kw name kw with
          | Some v => emit v (format_scan kw Text s')
          | None => Raise FormatError
          end
        else if field_special c then Unmodelled
        else format_scan kw (Field (name ++ [c])) s' in
      match st with
      | Text =>
          if c =? lbrace then format_scan kw AfterOpen s'
          else if c =? rbrace then format_scan kw AfterClose s'
          else emit [c] (format_scan kw Text s')
      | AfterOpen =>
          if c =? lbrace then emit [lbrace] (format_scan kw Text s')
          else in_field []
      | AfterClose =>
          if c =? rbrace then emit [rbrace] (format_scan kw Text s')
          else Raise FormatError
      | Field name => in_field name
      end
  end.

Definition format (template : str) (kw : list (str * str)) : outcome str :=
  format_scan kw Text template.


(** ** Dataframes and the database connection *)

Inductive cell : Type :=
| CInt (z : Z)
| CStr (s : str)
| CNaN.

(** A dataframe: its column labels in order and its rows.  The labels are
    strings, as the [.str] accessor of the source requires; repeated labels
    are allowed, as in pandas. *)
Record DataFrame : Type := mkDataFrame {
  columns : list str;
  rows : list (list cell)
}.

(** [dataframe.columns = labels] *)
Definition set_columns (df : DataFrame) (labels : list str) : DataFrame :=
  {| columns := labels; rows := rows df |}.

(** [str(v)] of a cell, as an f-string renders it. *)
Definition str_of_cell (v : cell) : str :=
  match v with
  | CInt z => lit (NilEmpty.string_of_int (Z.to_int z))
  | CStr s => s
  | CNaN => lit "nan"
  end.

Fixpoint positions (label : str) (labels : list str) (i : nat) : list nat :=
  match labels with
  | [] => []
  | l :: ls =>
      if str_eqb label l then i :: positions label ls (S i)
      else positions label ls (S i)
  end.

(** [df[label][0]] under the default integer index: the label must name
    exactly one column (a repeated label selects a sub-frame, in which [0] is
    no column) and the frame must have a first row. *)
Definition frame_item0 (df : DataFrame) (label : str) : outcome cell :=
  match positions label (columns df) 0 with
  | [j] =>
      match rows df with
      | r :: _ =>
          match nth_error r j with
          | Some v => Ok v
          | None => Raise LookupError
          end
      | [] => Raise LookupError
      end
  | _ => Raise LookupError
  end.

(** What the program asks of the connection object. *)
Inductive db_call : Type :=
| Execute (query : str)
| ImportFromPandas (df : DataFrame) (schema table : str)
| ExportToPandas (query : str).

(** A connection answers each request from the requests made before it:
    [None] is success for the two commands, a dataframe for an export. *)
Record connection : Type := mkConnection {
  on_execute : list db_call -> str -> option exn;
  on_import : list db_call -> DataFrame -> str -> str -> option exn;
  on_export : list db_call -> str -> exn + DataFrame
}.

(** ** [set_logging] *)

(** The logger [logging.getLogger(name)]. *)
Inductive logger : Type :=
| Logger (name : str).

(** The module's dict [loggers], by its items in insertion order, and the
    loggers on which the set-up block ([setLevel], a new [StreamHandler] with
    its formatter, [addHandler]) has run, one entry per run. *)
Record logging_state : Type := mkLogging {
  loggers : list (str * logger);
  set_up : list logger
}.

Fixpoint loggers_get (items : list (str * logger)) (name : str) : option logger :=
  match items with
  | [] => None
  | (k, lg) :: items' => if str_eqb name k then Some lg else loggers_get items' name
  end.

Definition set_logging (name : str) (st : logging_state) : logger * logging_state :=
  match loggers_get (loggers st) name with
  | Some lg => (lg, st)
  | None =>
      let lg := Logger name in
      (lg, {| loggers := loggers st ++ [(name, lg)]; set_up := set_up st ++ [lg] |})
  end.

(** The module as imported: [loggers = {}]. *)
Definition no_loggers : logging_state := {| loggers := []; set_up := [] |}.

(** The state after [set_logging] has been called with each of [names]. *)
Definition after_calls (names : list str) (st : logging_state) : logging_state :=
  fold_left (fun st name => snd (set_logging name st)) names st.

Definition logger_eq_dec : forall a b : logger, {a = b} + {a <> b}.
Proof. decide equality. apply str_eq_dec. Defined.

(** What every sequence of calls keeps: the loggers set up are those of the
    dict, each once, each under its own name. *)
Definition consistent (st : logging_state) : Prop :=
  set_up st = map snd (loggers st)
  /\ NoDup (map fst (loggers st))
  /\ forall k lg, In (k, lg) (loggers st) -> lg = Logger k.

(** ** Effects: requests sent, log lines, printed lines, the caller's object,
    the module's loggers *)

Record world (H : Type) : Type := mkWorld {
  calls : list db_call;
  log : list str;
  stdout : list str;
  heap : H;
  registry : logging_state
}.
Arguments mkWorld {H} calls log stdout heap registry.
Arguments calls {H} w.
Arguments log {H} w.
Arguments stdout {H} w.
Arguments heap {H} w.
Arguments registry {H} w.

Definition M (H A : Type) : Type := world H -> outcome A * world H.

Definition ret {H A} (a : A) : M H A := fun w => (Ok a, w).

Definition bind {H A B} (m : M H A) (k : A -> M H B) : M H B :=
  fun w =>
    match m w with
    | (Ok a, w') => k a w'
    | (Raise e, w') => (Raise e, w')
    | (Unmodelled, w') => (Unmodelled, w')
    end.

Notation "x <- m ;; k" := (bind m (fun x => k))
  (at level 61, m at next level, right associativity).
Notation "m ;; k" := (bind m (fun _ => k))
  (at level 61, right associativity).

(** A pure computation that may raise. *)
Definition lift {H A} (r : outcome A) : M H A := fun w => (r, w).

Definition get_heap {H} : M H H := fun w => (Ok (heap w), w).

Definition modify_heap {H} (f : H -> H) : M H unit :=
  fun w => (Ok tt, mkWorld (calls w) (log w) (stdout w) (f (heap w)) (registry w)).

(** [logger.info(msg)] *)
Definition log_info {H} (msg : str) : M H unit :=
  fun w => (Ok tt, mkWorld (calls w) (log w ++ [msg]) (stdout w) (heap w) (registry w)).

(** [print(msg)] *)
Definition print {H} (msg : str) : M H unit :=
  fun w => (Ok tt, mkWorld (calls w) (log w) (stdout w ++ [msg]) (heap w) (registry w)).

Definition sent {H} (c : db_call) (w : world H) : world H :=
  mkWorld (calls w ++ [c]) (log w) (stdout w) (heap w) (registry w).

(** The world once [set_logging()] has run: the call with the default name
    ["logger"], which registers and sets up that logger unless the module's
    dict holds it already. *)
Definition registered {H} (w : world H) : world H :=
  mkWorld (calls w) (log w) (stdout w) (heap w)
          (snd (set_logging (lit "logger") (registry w))).

(** [logger = set_logging()] *)
Definition get_logger {H} : M H logger :=
  fun w => (Ok (fst (set_logging (lit "logger") (registry w))), registered w).

(** [connection.execute(query)] *)
Definition execute {H} (conn : connection) (query : str) : M H unit :=
  fun w =>
    match on_execute conn (calls w) query with
    | None => (Ok tt, sent (Execute query) w)
    | Some e => (Raise e, sent (Execute query) w)
    end.

(** [connection.import_from_pandas(df, (schema, table))] *)
Definition import_from_pandas {H} (conn : connection) (df : DataFrame)
    (schema table : str) : M H unit :=
  fun w =>
    match on_import conn (calls w) df schema table with
    | None => (Ok tt, sent (ImportFromPandas df schema table) w)
    | Some e => (Raise e, sent (ImportFromPandas df schema table) w)
    end.

(** [connection.export_to_pandas(query)] *)
Definition export_to_pandas {H} (conn : connection) (query : str) : M H DataFrame :=
  fun w =>
    match on_export conn (calls w) query with
    | inr df => (Ok df, sent (ExportToPandas query) w)
    | inl e => (Raise e, sent (ExportToPandas query) w)
    end.

(** [exit()] *)
Definition exit {H A} : M H A := fun w => (Raise SystemExit, w).

(** [try: body / except Exception as exc: handler exc] *)
Definition try_except {H A} (body : M H A) (handler : exn -> M H A) : M H A :=
  fun w =>
    match body w with
    | (Raise e, w') => if is_Exception e then handler e w' else (Raise e, w')
    | r => r
    end.

(** ** [deployment] *)

(** [env == s] for an [env] that is [None] or a string. *)
Definition env_eq (env : option str) (s : str) : bool :=
  match env with
  | Some e => str_eqb e s
  | None => false
  end.

Definition is_None {A} (x : option A) : bool :=
  match x with
  | None => true
  | Some _ => false
  end.

Definition deployment {H} (env : option str) (prod dev : bool) : M H unit :=
  logger <- get_logger ;;
  try_except
    ((* BOTH ARE FALSE *)
     if eqb prod false && eqb dev false && is_None env then
       log_info (lit "runs neither in prod nor dev") ;; exit
     else if eqb prod false && eqb dev false && env_eq env (lit "prod") then
       log_info (lit "runs neither in prod nor dev") ;; exit
     else if eqb prod false && eqb dev false && env_eq env (lit "dev") then
       log_info (lit "runs neither in prod nor dev") ;; exit
     (* BOTH ARE TRUE *)
     else if is_None env then
       log_info (lit "runs in prod and dev")
     else if eqb prod true && eqb dev true && env_eq env (lit "prod") then
       log_info (lit "runs in prod and dev")
     else if eqb prod true && eqb dev true && env_eq env (lit "dev") then
       log_info (lit "runs in prod and dev")
     (* ONLY ONE IS TRUE *)
     else if eqb prod true && eqb dev false && env_eq env (lit "prod") then
       log_info (lit "runs in prod only")
     else if eqb prod true && eqb dev false && env_eq env (lit "dev") then
       log_info (lit "not running in dev - exit script") ;; exit
     else if eqb prod false && eqb dev true && env_eq env (lit "dev") then
       log_info (lit "runs in dev only")
     else if eqb prod false && eqb dev true && env_eq env (lit "prod") then
       log_info (lit "not running in prod - exit script") ;; exit
     else ret tt)
    (fun exc =>
       log_info (lit "Wrong input to the deployment function. Not running in any env. "
                 ++ [10] ++ lit "Error message: " ++ str_of_exn exc)).

(** ** [merge_tmp_into_target_tbl] *)

(** The dataframe argument is the caller's object: it is the [heap] of the
    world, read when it is handed to the driver and overwritten where the
    source assigns to [dataframe.columns]. *)
Definition merge_tmp_into_target_tbl (exa_connection : connection)
    (pk_columns exasol_schema exasol_table : str)
    (temp_schema temp_tbl : option str) : M DataFrame unit :=
  let connection := exa_connection in
  logger <- get_logger ;;
  let tmp_table := match temp_tbl with None => exasol_table | Some t => t end in
  let tmp_schema :=
    match temp_schema with None => exasol_schema ++ lit "_TMP" | Some s => s end in
  log_info (lit "Truncating table: " ++ tmp_schema ++ lit "." ++ tmp_table) ;;
  execute connection (lit "TRUNCATE TABLE " ++ tmp_schema ++ lit "." ++ tmp_table) ;;
  (* import to TMP SCHEMA *)
  dataframe <- get_heap ;;
  import_from_pandas connection dataframe tmp_schema tmp_table ;;
  log_info (lit "Data loaded successfully to the Temp table - "
            ++ tmp_schema ++ lit "." ++ tmp_table) ;;
  log_info (lit "Start merging...") ;;
  let pk_columns_list := map strip (split comma pk_columns) in
  let merge_query :=
    lit "MERGE INTO {schema}.{tbl} target_tbl USING {schema_tmp}.{tbl_tmp} tmp ON (" in
  let merge_query :=
    fold_left
      (fun q i => q ++ qlit "target_tbl.'" ++ i ++ qlit "'" ++ qlit " = tmp.'"
                    ++ i ++ qlit "' AND ")
      pk_columns_list merge_query in
  let merge_query := drop_last 5 merge_query ++ lit ") " in
  let merge_query :=
    merge_query
    ++ qlit "WHEN MATCHED THEN UPDATE SET target_tbl.'UPDATE_TIMESTAMP' = tmp.'UPDATE_TIMESTAMP'" in
  (* remove pk_columns, otherwise we would be updating columns of ON-condition *)
  let cols_not_to_merge :=
    pk_columns_list ++ [lit "INSERT_TIMESTAMP"; lit "UPDATE_TIMESTAMP"] in
  modify_heap (fun df => set_columns df (map strip (columns df))) ;;
  dataframe <- get_heap ;;
  let cols_merge :=
    filter (fun col => negb (py_in col cols_not_to_merge)) (columns dataframe) in
  let merge_query :=
    fold_left
      (fun q i => q ++ qlit ", target_tbl.'" ++ strip i ++ qlit "' = tmp.'"
                    ++ strip i ++ qlit "'")
      cols_merge merge_query in
  (* when not matched then insert all cols incl. PK columns *)
  let merge_query :=
    merge_query
    ++ qlit " WHEN NOT MATCHED THEN INSERT ('INSERT_TIMESTAMP', 'UPDATE_TIMESTAMP', "
    ++ qlit "'" ++ join (qlit "', '") (pk_columns_list ++ cols_merge) ++ qlit "'"
    ++ qlit ") VALUES (tmp.'INSERT_TIMESTAMP', tmp.'UPDATE_TIMESTAMP'" in
  let merge_query :=
    fold_left (fun q i => q ++ qlit ", tmp.'" ++ strip i ++ qlit "'")
      (pk_columns_list ++ cols_merge) merge_query in
  let merge_query := merge_query ++ lit ");" in
  statement <- lift (format merge_query
                       [(lit "schema", exasol_schema); (lit "tbl", exasol_table);
                        (lit "schema_tmp", tmp_schema); (lit "tbl_tmp", tmp_table)]) ;;
  execute connection statement ;;
  check_df <- export_to_pandas connection
                (lit "SELECT COUNT(*) AS COUNT_ROWS FROM " ++ exasol_schema ++ lit "."
                 ++ exasol_table ++ lit " " ++ [10]
                 ++ lit "                                    WHERE TO_DATE(UPDATE_TIMESTAMP) = CURRENT_DATE;") ;;
  count_rows <- lift (frame_item0 check_df (lit "COUNT_ROWS")) ;;
  log_info (str_of_cell count_rows ++ lit " rows inserted today.") ;;
  log_info (lit "-------------- MERGE TO " ++ exasol_schema ++ lit "." ++ exasol_table
            ++ lit " COMPLETE -----------------------").

(** ** [return_exa_conn] and [print_merge_query] *)

(** [environ] is the process environment once [load_dotenv] has read the
    [.env] file; [pyexasol_connect] is the driver's [connect]. *)
Definition return_exa_conn {H} (environ : str -> option str)
    (pyexasol_connect : option str -> option str -> option str -> exn + connection)
    (exa_user exa_pwd exa_dsn : str) : M H connection :=
  logger <- get_logger ;;
  let exasol_user := environ exa_user in
  let exasol_pwd := environ exa_pwd in
  let exasol_dsn := environ exa_dsn in
  conn <- lift (match pyexasol_connect exasol_user exasol_pwd exasol_dsn with
                | inr c => Ok c
                | inl e => Raise e
                end) ;;
  log_info (lit "Successfully connected to Exasol.") ;;
  ret conn.

Definition print_merge_query {H} (environ : str -> option str)
    (pyexasol_connect : option str -> option str -> option str -> exn + connection)
    (pk_columns exasol_schema exasol_table : str)
    (temp_schema temp_tbl : option str) : M H unit :=
  connection <- return_exa_conn environ pyexasol_connect
                  (lit "DWHEXA_USER") (lit "DWHEXA_PASSWORD") (lit "DWHEXA_HOST") ;;
  let tmp_table := match temp_tbl with None => exasol_table | Some t => t end in
  let tmp_schema :=
    match temp_schema with None => exasol_schema ++ lit "_TMP" | Some s => s end in
  dataframe <- export_to_pandas connection
                 (lit "SELECT * FROM " ++ tmp_schema ++ lit "." ++ tmp_table) ;;
  let pk_columns_list := map strip (split comma pk_columns) in
  let merge_query :=
    lit "MERGE INTO {schema}.{tbl} target_tbl USING {schema_tmp}.{tbl_tmp} tmp ON (" in
  let merge_query :=
    fold_left
      (fun q i => q ++ qlit "target_tbl.'" ++ i ++ qlit "'" ++ qlit " = tmp.'"
                    ++ i ++ qlit "' AND ")
      pk_columns_list merge_query in
  let merge_query := drop_last 5 merge_query ++ lit ") " in
  let merge_query :=
    merge_query
    ++ qlit "WHEN MATCHED THEN UPDATE SET target_tbl.'UPDATE_TIMESTAMP' = tmp.'UPDATE_TIMESTAMP'" in
  (* remove pk_columns, otherwise we would be updating columns of ON-condition *)
  let cols_not_to_merge :=
    pk_columns_list ++ [lit "INSERT_TIMESTAMP"; lit "UPDATE_TIMESTAMP"] in
  let dataframe := set_columns dataframe (map strip (columns dataframe)) in
  let cols_merge :=
    filter (fun col => negb (py_in col cols_not_to_merge)) (columns dataframe) in
  let merge_query :=
    fold_left
      (fun q i => q ++ qlit ", target_tbl.'" ++ strip i ++ qlit "' = tmp.'"
                    ++ strip i ++ qlit "'")
      cols_merge merge_query in
  (* when not matched then insert all cols incl. PK columns *)
  let merge_query :=
    merge_query
    ++ qlit " WHEN NOT MATCHED THEN INSERT ('INSERT_TIMESTAMP', 'UPDATE_TIMESTAMP', "
    ++ qlit "'" ++ join (qlit "', '") (pk_columns_list ++ cols_merge) ++ qlit "'"
    ++ qlit ") VALUES (tmp.'INSERT_TIMESTAMP', tmp.'UPDATE_TIMESTAMP'" in
  let merge_query :=
    fold_left (fun q i => q ++ qlit ", tmp.'" ++ strip i ++ qlit "'")
      (pk_columns_list ++ cols_merge) merge_query in
  let merge_query := merge_query ++ lit ");" in
  statement <- lift (format merge_query
                       [(lit "schema", exasol_schema); (lit "tbl", exasol_table);
                        (lit "schema_tmp", tmp_schema); (lit "tbl_tmp", tmp_table)]) ;;
  print statement.

(** ** Sample inputs *)

Definition friendly : connection :=
  {| on_execute := fun _ _ => None;
     on_import := fun _ _ _ _ => None;
     on_export := fun _ _ =>
       inr {| columns := [lit "COUNT_ROWS"]; rows := [[CInt 3]] |} |}.

Definition brands : DataFrame :=
  {| columns := [lit "BRAND"; lit " CATEGORY"; lit "PRICE "; lit "INSERT_TIMESTAMP";
                 lit "UPDATE_TIMESTAMP"];
     rows := [[CStr (lit "b"); CStr (lit "c"); CInt 5; CStr (lit "t0"); CStr (lit "t1")]] |}.

(** A process that has just imported the module: nothing sent, logged or
    printed, no logger registered. *)
Definition fresh {H} (h : H) : world H := mkWorld [] [] [] h no_loggers.

(** ** The statement, clause by clause

    The text of section 6 of the specification, written as a function of the
    primary-key names and of the columns to merge; the theorems below compare
    it with what the two functions build. *)

Definition INSERT_TIMESTAMP : str := lit "INSERT_TIMESTAMP".
Definition UPDATE_TIMESTAMP : str := lit "UPDATE_TIMESTAMP".

(** The trimmed primary-key names of an input string. *)
Definition pk_list (pk_columns : str) : list str :=
  map strip (split comma pk_columns).

(** The trimmed labels that are neither primary key nor reserved. *)
Definition cols_to_merge (pks labels : list str) : list str :=
  filter (fun col => negb (py_in col (pks ++ [INSERT_TIMESTAMP; UPDATE_TIMESTAMP])))
         (map strip labels).

Definition staging_schema (exasol_schema : str) (temp_schema : option str) : str :=
  match temp_schema with None => exasol_schema ++ lit "_TMP" | Some s => s end.

Definition staging_table (exasol_table : str) (temp_tbl : option str) : str :=
  match temp_tbl with None => exasol_table | Some t => t end.

(** [target_tbl."c" = tmp."c"] *)
Definition on_conjunct (c : str) : str :=
  qlit "target_tbl.'" ++ c ++ qlit "' = tmp.'" ++ c ++ qlit "'".

(** The same text, as an assignment of the update clause. *)
Definition assignment (c : str) : str :=
  qlit "target_tbl.'" ++ c ++ qlit "' = tmp.'" ++ c ++ qlit "'".

(** ["c"] *)
Definition quoted (c : str) : str := [dquote] ++ c ++ [dquote].

(** [tmp."c"] *)
Definition staged (c : str) : str := lit "tmp." ++ [dquote] ++ c ++ [dquote].

Definition merge_head (schema tbl schema_tmp tbl_tmp : str) : str :=
  lit "MERGE INTO " ++ schema ++ lit "." ++ tbl ++ lit " target_tbl USING "
  ++ schema_tmp ++ lit "." ++ tbl_tmp ++ lit " tmp ".

Definition on_clause (pks : list str) : str :=
  lit "ON (" ++ join (lit " AND ") (map on_conjunct pks) ++ lit ")".

(** The columns the update clause assigns, in order. *)
Definition updated_columns (cols : list str) : list str := UPDATE_TIMESTAMP :: cols.

Definition update_clause (cols : list str) : str :=
  lit "WHEN MATCHED THEN UPDATE SET "
  ++ join (lit ", ") (map assignment (updated_columns cols)).

(** The columns the insert clause lists, in order. *)
Definition inserted_columns (pks cols : list str) : list str :=
  INSERT_TIMESTAMP :: UPDATE_TIMESTAMP :: pks ++ cols.

Definition insert_column_list (pks cols : list str) : str :=
  join (lit ", ") (map quoted (inserted_columns pks cols)).

Definition insert_value_list (pks cols : list str) : str :=
  join (lit ", ") (map staged (inserted_columns pks cols)).

Definition insert_clause (pks cols : list str) : str :=
  lit "WHEN NOT MATCHED THEN INSERT (" ++ insert_column_list pks cols
  ++ lit ") VALUES (" ++ insert_value_list pks cols ++ lit ")".

Definition merge_text (schema tbl schema_tmp tbl_tmp : str) (pks cols : list str) : str :=
  merge_head schema tbl schema_tmp tbl_tmp
  ++ on_clause pks ++ lit " " ++ update_clause cols ++ lit " "
  ++ insert_clause pks cols ++ lit ";".

(** A name without [{] and [}]. *)
Definition plain (s : str) : bool :=
  forallb (fun c => negb (c =? lbrace) && negb (c =? rbrace)) s.

(** A name without a double quote. *)
Definition quote_free (s : str) : bool :=
  forallb (fun c => negb (c =? dquote)) s.


(** The requests of a run of [merge_tmp_into_target_tbl], by position. *)
Definition truncate_call (ts tt : str) : db_call :=
  Execute (lit "TRUNCATE TABLE " ++ ts ++ lit "." ++ tt).

Definition count_call (schema tbl : str) : db_call :=
  ExportToPandas
    (lit "SELECT COUNT(*) AS COUNT_ROWS FROM " ++ schema ++ lit "." ++ tbl ++ lit " "
     ++ [10]
     ++ lit "                                    WHERE TO_DATE(UPDATE_TIMESTAMP) = CURRENT_DATE;").

Definition select_call (ts tt : str) : db_call :=
  ExportToPandas (lit "SELECT * FROM " ++ ts ++ lit "." ++ tt).

(** The truncate and the bulk load succeed on [conn]. *)
Definition loads (conn : connection) (df : DataFrame) (ts tt : str) : Prop :=
  on_execute conn [] (lit "TRUNCATE TABLE " ++ ts ++ lit "." ++ tt) = None
  /\ on_import conn [truncate_call ts tt] df ts tt = None.

(** [needle] occurs in [hay]. *)
Fixpoint prefix_of (p s : str) : bool :=
  match p, s with
  | [], _ => true
  | _ :: _, [] => false
  | a :: p', b :: s' => (a =? b) && prefix_of p' s'
  end.

Fixpoint occurs (needle hay : str) : bool :=
  prefix_of needle hay
  || match hay with
     | [] => false
     | _ :: hay' => occurs needle hay'
     end.

(** The template [merge_query] holds when [format] is called on it, as the
    statements of both functions build it from the list [pk_columns_list] and
    from the labels [dataframe.columns] holds after the assignment. *)
Definition merge_query_of (pk_columns_list labels : list str) : str :=
  let merge_query :=
    lit "MERGE INTO {schema}.{tbl} target_tbl USING {schema_tmp}.{tbl_tmp} tmp ON (" in
  let merge_query :=
    fold_left
      (fun q i => q ++ qlit "target_tbl.'" ++ i ++ qlit "'" ++ qlit " = tmp.'"
                    ++ i ++ qlit "' AND ")
      pk_columns_list merge_query in
  let merge_query := drop_last 5 merge_query ++ lit ") " in
  let merge_query :=
    merge_query
    ++ qlit "WHEN MATCHED THEN UPDATE SET target_tbl.'UPDATE_TIMESTAMP' = tmp.'UPDATE_TIMESTAMP'" in
  let cols_not_to_merge :=
    pk_columns_list ++ [lit "INSERT_TIMESTAMP"; lit "UPDATE_TIMESTAMP"] in
  let cols_merge :=
    filter (fun col => negb (py_in col cols_not_to_merge)) labels in
  let merge_query :=
    fold_left
      (fun q i => q ++ qlit ", target_tbl.'" ++ strip i ++ qlit "' = tmp.'"
                    ++ strip i ++ qlit "'")
      cols_merge merge_query in
  let merge_query :=
    merge_query
    ++ qlit " WHEN NOT MATCHED THEN INSERT ('INSERT_TIMESTAMP', 'UPDATE_TIMESTAMP', "
    ++ qlit "'" ++ join (qlit "', '") (pk_columns_list ++ cols_merge) ++ qlit "'"
    ++ qlit ") VALUES (tmp.'INSERT_TIMESTAMP', tmp.'UPDATE_TIMESTAMP'" in
  let merge_query :=
    fold_left (fun q i => q ++ qlit ", tmp.'" ++ strip i ++ qlit "'")
      (pk_columns_list ++ cols_merge) merge_query in
  merge_query ++ lit ");".

(** The keyword arguments of the final [format]. *)
Definition merge_kw (schema tbl schema_tmp tbl_tmp : str) : list (str * str) :=
  [(lit "schema", schema); (lit "tbl", tbl);
   (lit "schema_tmp", schema_tmp); (lit "tbl_tmp", tbl_tmp)].

(** The statement text of a call, from its arguments and the dataframe's
    labels: what [format] makes of the template. *)
Definition merge_statement (pk_columns exasol_schema exasol_table : str)
    (temp_schema temp_tbl : option str) (labels : list str) : outcome str :=
  format (merge_query_of (pk_list pk_columns) (map strip labels))
         (merge_kw exasol_schema exasol_table
                   (staging_schema exasol_schema temp_schema)
                   (staging_table exasol_table temp_tbl)).

(** ** Reading a column list back

    A reader for the two lists of the insert clause: items [prefix"name"]
    separated by a comma and a space.  [prefix] is empty for the column list
    and [tmp.] for the value list. *)
Inductive reader : Type :=
| AtItem (todo : str)     (* in the prefix, [todo] and the opening quote to come *)
| InName (acc : str)      (* between the quotes *)
| AfterItem               (* after the closing quote *)
| AfterComma.             (* after the comma *)

Fixpoint read_items (prefix : str) (st : reader) (s : str) : option (list str) :=
  match s with
  | [] => match st with
          | AfterItem => Some []
          | _ => None
          end
  | c :: s' =>
      match st with
      | AtItem [] =>
          if c =? dquote then read_items prefix (InName []) s' else None
      | AtItem (p :: todo) =>
          if c =? p then read_items prefix (AtItem todo) s' else None
      | InName acc =>
          if c =? dquote then option_map (cons acc) (read_items prefix AfterItem s')
          else read_items prefix (InName (acc ++ [c])) s'
      | AfterItem =>
          if c =? comma then read_items prefix AfterComma s' else None
      | AfterComma =>
          if c =? 32 then read_items prefix (AtItem prefix) s' else None
      end
  end.

Definition read_column_list (prefix : str) (s : str) : option (list str) :=
  match s with
  | [] => Some []
  | _ => read_items prefix (AtItem prefix) s
  end.

(** A connection that answers its request number [n] (from 0) with [e] and
    every other request with success. *)
Definition failing_at (n : nat) (e : exn) : connection :=
  {| on_execute := fun h _ => if Nat.eqb (length h) n then Some e else None;
     on_import := fun h _ _ _ => if Nat.eqb (length h) n then Some e else None;
     on_export := fun h _ =>
       if Nat.eqb (length h) n then inl e
       else inr {| columns := [lit "COUNT_ROWS"]; rows := [[CInt 3]] |} |}.

(** A connection whose staging table holds the rows of [brands]. *)
Definition staging : connection :=
  {| on_execute := fun _ _ => None;
     on_import := fun _ _ _ _ => None;
     on_export := fun _ _ => inr brands |}.

Definition no_environ : str -> option str := fun _ => None.

Definition connect_to (c : connection)
  : option str -> option str -> option str -> exn + connection :=
  fun _ _ _ => inr c.

(** [brands] with its labels already trimmed. *)
Definition brands_trimmed : DataFrame :=
  {| columns := [lit "BRAND"; lit "CATEGORY"; lit "PRICE"; lit "INSERT_TIMESTAMP";
                 lit "UPDATE_TIMESTAMP"];
     rows := rows brands |}.

(** Two dataframes whose labels differ by a quote inside a name. *)
Definition one_odd_column : DataFrame :=
  {| columns := [lit "K"; qlit "a', 'b"]; rows := [] |}.

Definition two_columns : DataFrame :=
  {| columns := [lit "K"; lit "a"; lit "b"]; rows := [] |}.

(** ** The helper functions: [parse_timestamp], [check_for_key], [extract_key] *)

(** What the helpers raise. *)
Inductive raised : Type :=
| ValueError
| IndexError
| AttributeError.

(** [NotModelled] marks an argument of [int] outside the fragment described
    below. *)
Inductive answer (A : Type) : Type :=
| Return (a : A)
| Throw (e : raised)
| NotModelled.
Arguments Return {A} a.
Arguments Throw {A} e.
Arguments NotModelled {A}.

Definition and_then {A B} (r : answer A) (k : A -> answer B) : answer B :=
  match r with
  | Return a => k a
  | Throw e => Throw e
  | NotModelled => NotModelled
  end.

(** [parse_timestamp]: [x[0:10] + ' ' + x[11:-1]], [None] for [None]. *)
Definition parse_timestamp (x : option str) : option str :=
  match x with
  | None => None
  | Some x => Some (firstn 10 x ++ lit " " ++ skipn 11 (drop_last 1 x))
  end.

(** A value as [json.load] builds it, numbers being integers: [None], a
    boolean, an integer, a string, a list, or a dict given by its items in
    order ([get] takes the first item with the key; the keys of a dict are
    distinct). *)
#[local] Set Warnings "-register-all".
Inductive value : Type :=
| VNone
| VBool (b : bool)
| VInt (z : Z)
| VStr (s : str)
| VList (l : list value)
| VDict (items : list (str * value)).

(** [bool(v)] *)
Definition truthy (v : value) : bool :=
  match v with
  | VNone => false
  | VBool b => b
  | VInt z => negb (z =? 0)%Z
  | VStr s => match s with [] => false | _ => true end
  | VList l => match l with [] => false | _ => true end
  | VDict items => match items with [] => false | _ => true end
  end.

Fixpoint dict_find (items : list (str * value)) (key : str) : option value :=
  match items with
  | [] => None
  | (k, v) :: items' => if str_eqb key k then Some v else dict_find items' key
  end.

(** [d.get(key, default)] *)
Definition dict_get (items : list (str * value)) (key : str) (default : value) : value :=
  match dict_find items key with
  | Some v => v
  | None => default
  end.

(** [check_for_key]: [x.get(key_name, "empty")] when [type(x) == dict], else
    [None]. *)
Definition check_for_key (x : value) (key_name : str) : value :=
  match x with
  | VDict items => dict_get items key_name (VStr (lit "empty"))
  | _ => VNone
  end.

(** *** [int(key)] for a string

    Whitespace around, an optional sign, decimal digits with single
    underscores between them.  A code point above 127 (further spaces and
    digits of Unicode) and a numeral of more than 4000 digits (refused by
    recent interpreters) are outside the fragment. *)
Definition is_ascii_space (c : N) : bool := ((9 <=? c) && (c <=? 13)) || (c =? 32).

Definition is_digit (c : N) : bool := (48 <=? c) && (c <=? 57).

Definition digit_value (c : N) : Z := Z.of_N (c - 48).

Inductive int_state : Type :=
| Leading
| Signed (negative : bool)
| Digits (negative : bool) (count : nat) (acc : Z)
| Underscore (negative : bool) (count : nat) (acc : Z)
| Trailing (v : Z).

Definition signed (negative : bool) (acc : Z) : Z :=
  if negative then (- acc)%Z else acc.

Definition more_digits (negative : bool) (count : nat) (acc : Z) (c : N) : int_state :=
  Digits negative (S count) (10 * acc + digit_value c)%Z.

Fixpoint int_scan (st : int_state) (s : str) : answer Z :=
  match s with
  | [] =>
      match st with
      | Digits negative _ acc => Return (signed negative acc)
      | Trailing v => Return v
      | _ => Throw ValueError
      end
  | c :: s' =>
      if 128 <=? c then NotModelled
      else
        match st with
        | Leading =>
            if is_ascii_space c then int_scan Leading s'
            else if c =? 43 then int_scan (Signed false) s'
            else if c =? 45 then int_scan (Signed true) s'
            else if is_digit c then int_scan (more_digits false 0 0 c) s'
            else Throw ValueError
        | Signed negative =>
            if is_digit c then int_scan (more_digits negative 0 0 c) s'
            else Throw ValueError
        | Digits negative count acc =>
            if is_digit c then
              if Nat.leb 4000 count then NotModelled
              else int_scan (more_digits negative count acc c) s'
            else if c =? 95 then int_scan (Underscore negative count acc) s'
            else if is_ascii_space c then int_scan (Trailing (signed negative acc)) s'
            else Throw ValueError
        | Underscore negative count acc =>
            if is_digit c then
              if Nat.leb 4000 count then NotModelled
              else int_scan (more_digits negative count acc c) s'
            else Throw ValueError
        | Trailing v =>
            if is_ascii_space c then int_scan (Trailing v) s'
            else Throw ValueError
        end
  end.

Definition int_of_str (s : str) : answer Z := int_scan Leading s.

(** [l[i]] for an integer [i], negative indices counting from the end. *)
Definition list_item (l : list value) (i : Z) : answer value :=
  let n := Z.of_nat (length l) in
  let j := if (i <? 0)%Z then (i + n)%Z else i in
  if (j <? 0)%Z || (n <=? j)%Z then Throw IndexError
  else match nth_error l (Z.to_nat j) with
       | Some v => Return v
       | None => Throw IndexError
       end.

(** The function [reduce] folds:
    [d[int(key)] if isinstance(d, list) else d.get(key) if d else None]. *)
Definition extract_step (d : value) (key : str) : answer value :=
  match d with
  | VList l => and_then (int_of_str key) (list_item l)
  | _ =>
      if truthy d then
        match d with
        | VDict items => Return (dict_get items key VNone)
        | _ => Throw AttributeError
        end
      else Return VNone
  end.

(** [reduce(f, keys, d)] where [f] may raise. *)
Fixpoint reduce (f : value -> str -> answer value) (keys : list str) (d : value)
  : answer value :=
  match keys with
  | [] => Return d
  | key :: keys' => and_then (f d key) (reduce f keys')
  end.

Definition extract_key (dictionary : value) (path : str) : answer value :=
  let keys := split 46 path in
  reduce extract_step keys dictionary.

(** A key without the separator [sep]. *)
Definition free_of (sep : N) (s : str) : bool := forallb (fun c => negb (c =? sep)) s.

(** A value that is neither a list nor a dict. *)
Definition is_leaf (v : value) : bool :=
  match v with
  | VList _ | VDict _ => false
  | _ => true
  end.

(** A sample document. *)
Definition order : value :=
  VDict [(lit "id", VInt 7);
         (lit "customer",
          VDict [(lit "name", VStr (lit "Ada"));
                 (lit "tags", VList [VStr (lit "new"); VStr (lit "vip")])]);
         (lit "note", VStr [])].

(** ** [return_df_from_sql_script] and [execute_sql_script] *)

(** [read_file] is what [open(filename, 'r').read()] gives: the text of the
    script, or the error of a file that cannot be opened or decoded. *)
Definition read_script {H} (read_file : str -> exn + str) (filename : str) : M H str :=
  lift (match read_file filename with
        | inr text => Ok text
        | inl e => Raise e
        end).

(** The function returns the dataframe, and [None] where the [except] clause
    ends without a [return]. *)
Definition return_df_from_sql_script {H} (read_file : str -> exn + str)
    (filename : str) (exa_conn : connection) : M H (option DataFrame) :=
  logger <- get_logger ;;
  query <- read_script read_file filename ;;
  try_except
    (tbl_from_sql <- export_to_pandas exa_conn query ;;
     ret (Some tbl_from_sql))
    (fun exc =>
       log_info (lit "Couldn" ++ [apostrophe] ++ lit "t read the query. Error msg: "
                 ++ str_of_exn exc) ;;
       ret None).

Definition execute_sql_script {H} (read_file : str -> exn + str)
    (filename : str) (exa_conn : connection) : M H unit :=
  logger <- get_logger ;;
  query <- read_script read_file filename ;;
  try_except
    (execute exa_conn query)
    (fun exc =>
       log_info (lit "Couldn" ++ [apostrophe] ++ lit "t read the query. Error msg: "
                 ++ str_of_exn exc)).

(** ** A further sample connection *)

(** A connection whose count query comes back without a row. *)
Definition empty_count : connection :=
  {| on_execute := fun _ _ => None;
     on_import := fun _ _ _ _ => None;
     on_export := fun _ _ => inr {| columns := [lit "COUNT_ROWS"]; rows := [] |} |}.

(** ** [send_slack_alert] *)

(** *** [json.dumps] of the message *)

Definition hex_digit (n : N) : N := if n <? 10 then 48 + n else 87 + n.

(** ['{0:04x}'.format(n)] for [n] below [0x10000]. *)
Definition hex4 (n : N) : str :=
  [hex_digit (n / 4096 mod 16); hex_digit (n / 256 mod 16);
   hex_digit (n / 16 mod 16); hex_digit (n mod 16)].

(** What [encode_basestring_ascii] puts for one character: the short escapes,
    the printable ASCII characters as they are, [\uXXXX] below [0x10000] and a
    surrogate pair above. *)
Definition json_escape (c : N) : str :=
  if c =? 92 then [92; 92]
  else if c =? 34 then [92; 34]
  else if c =? 8 then [92; 98]
  else if c =? 12 then [92; 102]
  else if c =? 10 then [92; 110]
  else if c =? 13 then [92; 114]
  else if c =? 9 then [92; 116]
  else if (32 <=? c) && (c <=? 126) then [c]
  else if c <? 65536 then [92; 117] ++ hex4 c
  else
    let n := c - 65536 in
    let s1 := N.lor 55296 (N.land (N.shiftr n 10) 1023) in
    let s2 := N.lor 56320 (N.land n 1023) in
    [92; 117] ++ hex4 s1 ++ [92; 117] ++ hex4 s2.

Definition encode_basestring_ascii (s : str) : str :=
  [dquote] ++ concat (map json_escape s) ++ [dquote].

(** [json.dumps({'channel': channel, 'text': text})] for two strings. *)
Definition json_dumps_message (channel text : str) : str :=
  qlit "{'channel': " ++ encode_basestring_ascii channel
  ++ qlit ", 'text': " ++ encode_basestring_ascii text ++ lit "}".

(** [s.encode('utf-8')] where [s] is ASCII: the code points are the bytes. *)
Definition encode_utf8 (s : str) : outcome str :=
  if forallb (fun c => c <? 128) s then Ok s else Unmodelled.

(** *** The call *)

(** What posting a request comes to: [urlopen(req)] and [response.read()]
    succeed, or raise an [HTTPError], or a [URLError] that is no [HTTPError],
    or something else (named by its text). *)
Inductive http_answer : Type :=
| Posted
| HTTPError (code : Z) (reason : str)
| URLError (reason : str)
| OtherError (text : str).

(** The requests posted (URL and body), the lines given to [logger.info]
    and to [logger.error], and the module's loggers. *)
Record slack_world : Type := mkSlack {
  requests : list (str * str);
  info_lines : list str;
  error_lines : list str;
  slack_loggers : logging_state
}.

Inductive slack_result : Type :=
| Done
| Propagated (text : str)
| OutsideModel.

(** [request_error] is the error of [Request(hook_url, data)] on a URL it
    refuses; [urlopen] answers from the requests made before.  The function
    begins with [logger = set_logging()]: [known] is the module's loggers
    after that call. *)
Definition send_slack_alert
    (request_error : str -> option str)
    (urlopen : list (str * str) -> str -> str -> http_answer)
    (hook_url slack_channel slack_msg_text : str) (w : slack_world)
  : slack_result * slack_world :=
  let known := snd (set_logging (lit "logger") (slack_loggers w)) in
  let w := {| requests := requests w; info_lines := info_lines w;
              error_lines := error_lines w; slack_loggers := known |} in
  match encode_utf8 (json_dumps_message slack_channel slack_msg_text) with
  | Ok data =>
      match request_error hook_url with
      | Some text => (Propagated text, w)
      | None =>
          let posted := requests w ++ [(hook_url, data)] in
          match urlopen (requests w) hook_url data with
          | Posted =>
              (Done, {| requests := posted;
                        info_lines := info_lines w
                                      ++ [lit "Message posted to " ++ slack_channel];
                        error_lines := error_lines w;
                        slack_loggers := known |})
          | HTTPError code reason =>
              (Done, {| requests := posted;
                        info_lines := info_lines w;
                        error_lines := error_lines w
                                       ++ [lit "Request failed: "
                                           ++ lit (NilEmpty.string_of_int (Z.to_int code))
                                           ++ lit " " ++ reason];
                        slack_loggers := known |})
          | URLError reason =>
              (Done, {| requests := posted;
                        info_lines := info_lines w;
                        error_lines := error_lines w
                                       ++ [lit "Server connection failed: " ++ reason];
                        slack_loggers := known |})
          | OtherError text =>
              (Propagated text, {| requests := posted;
                                   info_lines := info_lines w;
                                   error_lines := error_lines w;
                                   slack_loggers := known |})
          end
      end
  | _ => (OutsideModel, w)
  end.

(** *** Reading a message back

    A reader of JSON strings: the short escapes, [\uXXXX], and a high
    surrogate followed by a low one for a character above [0xFFFF]. *)
Definition hex_value (c : N) : option N :=
  if (48 <=? c) && (c <=? 57) then Some (c - 48)
  else if (97 <=? c) && (c <=? 102) then Some (c - 87)
  else if (65 <=? c) && (c <=? 70) then Some (c - 55)
  else None.

Definition unescape (c : N) : option N :=
  if c =? 34 then Some 34
  else if c =? 92 then Some 92
  else if c =? 47 then Some 47
  else if c =? 98 then Some 8
  else if c =? 102 then Some 12
  else if c =? 110 then Some 10
  else if c =? 114 then Some 13
  else if c =? 116 then Some 9
  else None.

Definition is_high (v : N) : bool := (55296 <=? v) && (v <=? 56319).
Definition is_low (v : N) : bool := (56320 <=? v) && (v <=? 57343).

Inductive json_state : Type :=
| JText
| JEscape
| JHex (more : nat) (acc : N) (high : option N)
| JLow1 (high : N)
| JLow2 (high : N).

Definition push (c : N) (r : option (str * str)) : option (str * str) :=
  match r with
  | Some (body, rest) => Some (c :: body, rest)
  | None => None
  end.

(** The string up to its closing quote, decoded, and what follows it. *)
Fixpoint json_read (st : json_state) (s : str) : option (str * str) :=
  match s with
  | [] => None
  | c :: s' =>
      match st with
      | JText =>
          if c =? 34 then Some ([], s')
          else if c =? 92 then json_read JEscape s'
          else if c <? 32 then None
          else push c (json_read JText s')
      | JEscape =>
          if c =? 117 then json_read (JHex 3 0 None) s'
          else match unescape c with
               | Some d => push d (json_read JText s')
               | None => None
               end
      | JHex more acc high =>
          match hex_value c with
          | None => None
          | Some d =>
              let v := 16 * acc + d in
              match more with
              | S k => json_read (JHex k v high) s'
              | O =>
                  match high with
                  | None =>
                      if is_high v then json_read (JLow1 v) s'
                      else if is_low v then None
                      else push v (json_read JText s')
                  | Some h =>
                      if is_low v then
                        push (65536 + (h - 55296) * 1024 + (v - 56320))
                             (json_read JText s')
                      else None
                  end
              end
          end
      | JLow1 h => if c =? 92 then json_read (JLow2 h) s' else None
      | JLow2 h => if c =? 117 then json_read (JHex 3 0 (Some h)) s' else None
      end
  end.

Definition expect (l s : str) : option str :=
  if prefix_of l s then Some (skipn (length l) s) else None.

(** The channel and the text of a message object. *)
Definition read_message (s : str) : option (str * str) :=
  match expect (qlit "{'channel': '") s with
  | Some s1 =>
      match json_read JText s1 with
      | Some (channel, s2) =>
          match expect (qlit ", 'text': '") s2 with
          | Some s3 =>
              match json_read JText s3 with
              | Some (text, s4) =>
                  if str_eqb s4 (lit "}") then Some (channel, text) else None
              | None => None
              end
          | None => None
          end
      | None => None
      end
  | None => None
  end.

(** A code point that is a character: in range and no surrogate. *)
Definition is_scalar (c : N) : bool :=
  (c <? 1114112) && negb ((55296 <=? c) && (c <=? 57343)).

(** An ASCII character that is printed as it is. *)
Definition printable (c : N) : bool := (32 <=? c) && (c <=? 126).

(** ** Reading the comparisons of a clause back

    A reader for the ON clause and for the update clause: comparisons
    [target_tbl."a" = tmp."b"] separated by [sep], a quoted name running up to
    the next double quote.  It reads the comparisons the text begins with and
    returns them with the text left unread. *)

(** The text up to the next double quote, and the text after that quote. *)
Fixpoint until_quote (s : str) : option (str * str) :=
  match s with
  | [] => None
  | c :: s' =>
      if c =? dquote then Some ([], s')
      else match until_quote s' with
           | Some (name, rest) => Some (c :: name, rest)
           | None => None
           end
  end.

(** One comparison [target_tbl."a" = tmp."b"]: the two names and the rest. *)
Definition read_comparison (s : str) : option ((str * str) * str) :=
  match expect (qlit "target_tbl.'") s with
  | Some s1 =>
      match until_quote s1 with
      | Some (a, s2) =>
          match expect (qlit " = tmp.'") s2 with
          | Some s3 =>
              match until_quote s3 with
              | Some (b, rest) => Some ((a, b), rest)
              | None => None
              end
          | None => None
          end
      | None => None
      end
  | None => None
  end.

(** At most [fuel] comparisons; a separator is read only when a comparison
    follows it. *)
Fixpoint read_comparisons (fuel : nat) (sep s : str) : list (str * str) * str :=
  match fuel with
  | O => ([], s)
  | S fuel' =>
      match read_comparison s with
      | Some (p, rest) =>
          match expect sep rest with
          | Some rest' =>
              match read_comparisons fuel' sep rest' with
              | ([], _) => ([p], rest)
              | (ps, unread) => (p :: ps, unread)
              end
          | None => ([p], rest)
          end
      | None => ([], s)
      end
  end.

(** A text holds fewer comparisons than characters. *)
Definition comparisons (sep s : str) : list (str * str) * str :=
  read_comparisons (length s) sep s.

Definition read_on_clause (s : str) : option (list (str * str) * str) :=
  option_map (comparisons (lit " AND ")) (expect (lit "ON (") s).

Definition read_update_clause (s : str) : option (list (str * str) * str) :=
  option_map (comparisons (lit ", ")) (expect (lit "WHEN MATCHED THEN UPDATE SET ") s).

(** A column compared with, or assigned from, the column of its own name. *)
Definition same_name (c : str) : str * str := (c, c).

(** A key that is one name, with double quotes in it. *)
Definition odd_key : str :=
  qlit "A' = tmp.'A' AND target_tbl.'B' = tmp.'B' AND target_tbl.'C".

(** A dataframe whose second label has double quotes in it. *)
Definition odd_label : str :=
  qlit "X' = tmp.'X', target_tbl.'INSERT_TIMESTAMP' = tmp.'INSERT_TIMESTAMP', target_tbl.'K' = tmp.'K', target_tbl.'UPDATE_TIMESTAMP' = tmp.'UPDATE_TIMESTAMP', target_tbl.'Y".

Definition odd_frame : DataFrame :=
  {| columns := [lit "K"; odd_label]; rows := [] |}.


(** Two frames with the same labels in another order, and a connection whose
    every export gives the frame it holds. *)
Definition ordered : DataFrame :=
  {| columns := [lit "K"; lit "A"; lit "B"]; rows := [] |}.

Definition shuffled : DataFrame :=
  {| columns := [lit "K"; lit "B"; lit "A"]; rows := [] |}.

Definition holding (df : DataFrame) : connection :=
  {| on_execute := fun _ _ => None;
     on_import := fun _ _ _ _ => None;
     on_export := fun _ _ => inr df |}.

(** * Properties *)

(** ** The example of the specification, run *)

Example merge_brands :
  merge_tmp_into_target_tbl friendly (lit "BRAND, CATEGORY") (lit "STAGE") (lit "T")
    None None (fresh brands)
  = (Ok tt,
     {| calls :=
          [Execute (lit "TRUNCATE TABLE STAGE_TMP.T");
           ImportFromPandas brands (lit "STAGE_TMP") (lit "T");
           Execute
             (qlit "MERGE INTO STAGE.T target_tbl USING STAGE_TMP.T tmp ON (target_tbl.'BRAND' = tmp.'BRAND' AND target_tbl.'CATEGORY' = tmp.'CATEGORY') WHEN MATCHED THEN UPDATE SET target_tbl.'UPDATE_TIMESTAMP' = tmp.'UPDATE_TIMESTAMP', target_tbl.'PRICE' = tmp.'PRICE' WHEN NOT MATCHED THEN INSERT ('INSERT_TIMESTAMP', 'UPDATE_TIMESTAMP', 'BRAND', 'CATEGORY', 'PRICE') VALUES (tmp.'INSERT_TIMESTAMP', tmp.'UPDATE_TIMESTAMP', tmp.'BRAND', tmp.'CATEGORY', tmp.'PRICE');");
           count_call (lit "STAGE") (lit "T")];
        log :=
          [lit "Truncating table: STAGE_TMP.T";
           lit "Data loaded successfully to the Temp table - STAGE_TMP.T";
           lit "Start merging...";
           lit "3 rows inserted today.";
           lit "-------------- MERGE TO STAGE.T COMPLETE -----------------------"];
        stdout := [];
        heap := brands_trimmed;
        registry := {| loggers := [(lit "logger", Logger (lit "logger"))];
                       set_up := [Logger (lit "logger")] |} |}).
Proof. vm_compute. reflexivity. Qed.

Example print_brands :
  stdout (snd (print_merge_query no_environ (connect_to staging) (lit "BRAND, CATEGORY")
                 (lit "STAGE") (lit "T") None None (fresh tt)))
  = [qlit "MERGE INTO STAGE.T target_tbl USING STAGE_TMP.T tmp ON (target_tbl.'BRAND' = tmp.'BRAND' AND target_tbl.'CATEGORY' = tmp.'CATEGORY') WHEN MATCHED THEN UPDATE SET target_tbl.'UPDATE_TIMESTAMP' = tmp.'UPDATE_TIMESTAMP', target_tbl.'PRICE' = tmp.'PRICE' WHEN NOT MATCHED THEN INSERT ('INSERT_TIMESTAMP', 'UPDATE_TIMESTAMP', 'BRAND', 'CATEGORY', 'PRICE') VALUES (tmp.'INSERT_TIMESTAMP', tmp.'UPDATE_TIMESTAMP', tmp.'BRAND', tmp.'CATEGORY', tmp.'PRICE');"].
Proof. vm_compute. reflexivity. Qed.

Example format_escapes :
  format (lit "a {x}.{y} {{b}}") [(lit "x", lit "S"); (lit "y", lit "T")]
  = Ok (lit "a S.T {b}")
  /\ format (lit "a}b") [] = Raise FormatError
  /\ format (lit "{tbl") [(lit "tbl", lit "T")] = Raise FormatError
  /\ format (lit "{0}") [(lit "tbl", lit "T")] = Raise FormatError.
Proof. repeat split. Qed.

Example split_strip :
  split comma (lit "a,") = [lit "a"; []]
  /\ split comma [] = [[]]
  /\ pk_list (lit " BRAND , CATEGORY") = [lit "BRAND"; lit "CATEGORY"]
  /\ strip (lit "  BRAND X ") = lit "BRAND X".
Proof. repeat split. Qed.

(** ** Strings *)

Lemma str_eqb_eq (a b : str) : str_eqb a b = true <-> a = b.
Proof.
  unfold str_eqb. destruct (str_eq_dec a b); split; congruence.
Qed.

Lemma str_eqb_neq (a b : str) : str_eqb a b = false <-> a <> b.
Proof.
  unfold str_eqb. destruct (str_eq_dec a b); split; congruence.
Qed.

Lemma py_in_In (x : str) (l : list str) : py_in x l = true <-> In x l.
Proof.
  unfold py_in. rewrite existsb_exists. split.
  - intros [y [Hy E]]. apply str_eqb_eq in E. now subst.
  - intros Hx. exists x. split; [assumption | now apply str_eqb_eq].
Qed.

Lemma py_in_not_In (x : str) (l : list str) : py_in x l = false <-> ~ In x l.
Proof.
  rewrite <- py_in_In. destruct (py_in x l); split; congruence.
Qed.

Lemma forallb_rev_eq {A} (f : A -> bool) (l : list A) :
  forallb f (rev l) = forallb f l.
Proof.
  induction l as [|a l IH]; simpl; [reflexivity|].
  rewrite forallb_app, IH. simpl. rewrite andb_true_r. apply andb_comm.
Qed.

Lemma lstrip_spaces (l : str) : forallb is_space l = true -> lstrip l = [].
Proof.
  induction l as [|c l IH]; simpl; [reflexivity|].
  intros H. apply andb_true_iff in H as [Hc Hl]. rewrite Hc. auto.
Qed.

Lemma lstrip_app_spaces (l s : str) :
  forallb is_space l = true -> lstrip (l ++ s) = lstrip s.
Proof.
  induction l as [|c l IH]; simpl; [reflexivity|].
  intros H. apply andb_true_iff in H as [Hc Hl]. rewrite Hc. auto.
Qed.

Lemma lstrip_app_word (a b : str) :
  forallb is_space a = false -> lstrip (a ++ b) = lstrip a ++ b.
Proof.
  induction a as [|c a IH]; simpl; [discriminate|].
  destruct (is_space c); simpl; [exact IH | reflexivity].
Qed.

Lemma rstrip_app_spaces (s r : str) :
  forallb is_space r = true -> rstrip (s ++ r) = rstrip s.
Proof.
  intros H. unfold rstrip. rewrite rev_app_distr.
  rewrite lstrip_app_spaces; [reflexivity|]. now rewrite forallb_rev_eq.
Qed.

Lemma lstrip_split (s : str) :
  exists l, forallb is_space l = true /\ s = l ++ lstrip s.
Proof.
  induction s as [|c s [l [Hl E]]]; simpl.
  - exists []. auto.
  - destruct (is_space c) eqn:Hc.
    + exists (c :: l). simpl. rewrite Hc, Hl. split; [reflexivity | congruence].
    + exists []. auto.
Qed.

Lemma rstrip_split (s : str) :
  exists r, forallb is_space r = true /\ s = rstrip s ++ r.
Proof.
  destruct (lstrip_split (rev s)) as [l [Hl E]].
  exists (rev l). split; [now rewrite forallb_rev_eq|].
  unfold rstrip. rewrite <- rev_app_distr, <- E. symmetry. apply rev_involutive.
Qed.

(** Whitespace around a name does not survive [strip]. *)
Lemma strip_padded (l c r : str) :
  forallb is_space l = true -> forallb is_space r = true ->
  strip (l ++ c ++ r) = strip c.
Proof.
  intros Hl Hr. unfold strip. rewrite lstrip_app_spaces by assumption.
  destruct (forallb is_space c) eqn:Hc.
  - rewrite lstrip_app_spaces by assumption.
    now rewrite (lstrip_spaces r Hr), (lstrip_spaces c Hc).
  - rewrite lstrip_app_word by assumption. now apply rstrip_app_spaces.
Qed.

Lemma strip_split (s : str) :
  exists l r, forallb is_space l = true /\ forallb is_space r = true
              /\ s = l ++ strip s ++ r.
Proof.
  destruct (lstrip_split s) as [l [Hl El]].
  destruct (rstrip_split (lstrip s)) as [r [Hr Er]].
  exists l, r. repeat split; try assumption.
  unfold strip. now rewrite <- Er.
Qed.

Lemma strip_idempotent (s : str) : strip (strip s) = strip s.
Proof.
  destruct (strip_split s) as [l [r [Hl [Hr E]]]].
  rewrite E at 2. symmetry. now apply strip_padded.
Qed.



Lemma split_not_nil (sep : N) (s : str) : split sep s <> [].
Proof.
  destruct s as [|c s]; simpl; [discriminate|].
  destruct (c =? sep); [discriminate|].
  destruct (split sep s); discriminate.
Qed.

Lemma split_length (sep : N) (s : str) :
  length (split sep s) = S (count_occ N.eq_dec s sep).
Proof.
  induction s as [|c s IH]; simpl; [reflexivity|].
  destruct (N.eqb_spec c sep) as [E|E].
  - simpl. rewrite IH. destruct (N.eq_dec c sep); congruence.
  - destruct (N.eq_dec c sep); [congruence|].
    pose proof (split_not_nil sep s).
    destruct (split sep s); [congruence | exact IH].
Qed.

Lemma pk_list_not_nil (pk : str) : pk_list pk <> [].
Proof.
  unfold pk_list. pose proof (split_not_nil comma pk).
  destruct (split comma pk); [congruence | discriminate].
Qed.

Lemma pk_list_trimmed (pk : str) : Forall (fun c => strip c = c) (pk_list pk).
Proof.
  unfold pk_list. apply Forall_forall. intros c Hc.
  apply in_map_iff in Hc as [x [E _]]. subst. apply strip_idempotent.
Qed.


Lemma expect_app (l r : str) : expect l (l ++ r) = Some r.
Proof.
  unfold expect.
  assert (P : prefix_of l (l ++ r) = true).
  { induction l as [|x l IH]; [reflexivity|]. cbn. now rewrite N.eqb_refl. }
  rewrite P. f_equal. clear P. induction l as [|x l IH]; [reflexivity | exact IH].
Qed.

(** ** Loops and joins *)

Lemma fold_left_append (f : str -> str) (l : list str) (q : str) :
  fold_left (fun q i => q ++ f i) l q = q ++ concat (map f l).
Proof.
  revert q. induction l as [|x l IH]; intros q; simpl.
  - now rewrite app_nil_r.
  - rewrite IH. now rewrite <- app_assoc.
Qed.

Lemma join_cons (sep x : str) (xs : list str) :
  join sep (x :: xs) = x ++ concat (map (fun y => sep ++ y) xs).
Proof.
  revert x. induction xs as [|y ys IH]; intros x.
  - simpl. now rewrite app_nil_r.
  - change (join sep (x :: y :: ys)) with (x ++ sep ++ join sep (y :: ys)).
    rewrite IH. simpl. now rewrite <- app_assoc.
Qed.

Lemma join_trailing (sep : str) (x : str) (xs : list str) :
  concat (map (fun y => y ++ sep) (x :: xs)) = join sep (x :: xs) ++ sep.
Proof.
  revert x. induction xs as [|y ys IH]; intros x.
  - simpl. now rewrite app_nil_r.
  - change (join sep (x :: y :: ys)) with (x ++ sep ++ join sep (y :: ys)).
    change (concat (map (fun y => y ++ sep) (x :: y :: ys)))
      with ((x ++ sep) ++ concat (map (fun y => y ++ sep) (y :: ys))).
    rewrite IH. now rewrite <- !app_assoc.
Qed.

Lemma drop_last_app (s t : str) : drop_last (length t) (s ++ t) = s.
Proof.
  unfold drop_last. rewrite length_app.
  replace (length s + length t - length t)%nat with (length s + 0)%nat by lia.
  rewrite firstn_app_2. simpl. apply app_nil_r.
Qed.

Lemma quoted_join (x : str) (xs : list str) :
  qlit "'" ++ join (qlit "', '") (x :: xs) ++ qlit "'"
  = join (lit ", ") (map quoted (x :: xs)).
Proof.
  revert x. induction xs as [|y ys IH]; intros x.
  - reflexivity.
  - change (join (qlit "', '") (x :: y :: ys))
      with (x ++ qlit "', '" ++ join (qlit "', '") (y :: ys)).
    change (join (lit ", ") (map quoted (x :: y :: ys)))
      with (quoted x ++ lit ", " ++ join (lit ", ") (map quoted (y :: ys))).
    rewrite <- IH. unfold quoted. rewrite <- !app_assoc. reflexivity.
Qed.

Lemma join_trailing_map {A} (f : A -> str) (sep : str) (x : A) (xs : list A) :
  concat (map (fun i => f i ++ sep) (x :: xs)) = join sep (map f (x :: xs)) ++ sep.
Proof.
  rewrite <- (map_map f (fun y => y ++ sep)). apply join_trailing.
Qed.

Lemma join_cons_map {A} (f : A -> str) (sep : str) (x : A) (xs : list A) :
  join sep (map f (x :: xs)) = f x ++ concat (map (fun y => sep ++ f y) xs).
Proof.
  rewrite <- (map_map f (fun y => sep ++ y)). apply join_cons.
Qed.

Lemma template_shape (pks labels : list str) :
  pks <> [] ->
  Forall (fun c => strip c = c) pks ->
  Forall (fun c => strip c = c) labels ->
  let cols :=
    filter (fun col => negb (py_in col (pks ++ [INSERT_TIMESTAMP; UPDATE_TIMESTAMP])))
           labels in
  merge_query_of pks labels
  = lit "MERGE INTO {schema}.{tbl} target_tbl USING {schema_tmp}.{tbl_tmp} tmp "
    ++ on_clause pks ++ lit " " ++ update_clause cols ++ lit " "
    ++ insert_clause pks cols ++ lit ";".
Proof.
  intros Hne Hpk Hlab cols.
  assert (Hcols : Forall (fun c => strip c = c) cols).
  { apply Forall_forall. intros c Hc. apply filter_In in Hc as [Hc _].
    revert c Hc. now apply Forall_forall. }
  assert (Hall : Forall (fun c => strip c = c) (pks ++ cols))
    by (apply Forall_app; auto).
  unfold merge_query_of. fold INSERT_TIMESTAMP UPDATE_TIMESTAMP. fold cols.
  rewrite !fold_left_append.
  rewrite (map_ext _ (fun i => on_conjunct i ++ lit " AND ")).
  2:{ intros i. unfold on_conjunct. rewrite <- !app_assoc. reflexivity. }
  rewrite (map_ext_in _ (fun i => lit ", " ++ assignment i) cols).
  2:{ intros i Hi. rewrite (proj1 (Forall_forall _ _) Hcols i Hi). reflexivity. }
  rewrite (map_ext_in _ (fun i => lit ", " ++ staged i) (pks ++ cols)).
  2:{ intros i Hi. rewrite (proj1 (Forall_forall _ _) Hall i Hi). reflexivity. }
  destruct pks as [|p pks]; [congruence|].
  rewrite join_trailing_map. rewrite (app_assoc _ _ (lit " AND ")).
  change 5%nat with (length (lit " AND ")). rewrite drop_last_app.
  unfold on_clause, update_clause, insert_clause, insert_column_list,
    insert_value_list, inserted_columns, updated_columns.
  rewrite (join_cons_map assignment (lit ", ") UPDATE_TIMESTAMP cols).
  change (join (lit ", ")
            (map quoted (INSERT_TIMESTAMP :: UPDATE_TIMESTAMP :: (p :: pks) ++ cols)))
    with (quoted INSERT_TIMESTAMP ++ lit ", " ++ quoted UPDATE_TIMESTAMP ++ lit ", "
          ++ join (lit ", ") (map quoted (p :: pks ++ cols))).
  rewrite <- quoted_join.
  rewrite (join_cons_map staged (lit ", ") INSERT_TIMESTAMP).
  cbn [map concat]. rewrite <- !app_assoc. reflexivity.
Qed.

(** ** [format] on the template *)

Lemma emit_emit (a b : str) (r : outcome str) :
  emit a (emit b r) = emit (a ++ b) r.
Proof.
  destruct r; simpl; [now rewrite app_assoc | reflexivity | reflexivity].
Qed.

Lemma format_scan_plain (kw : list (str * str)) (l rest : str) :
  plain l = true ->
  format_scan kw Text (l ++ rest) = emit l (format_scan kw Text rest).
Proof.
  induction l as [|c l IH]; intros Hl.
  - simpl. now destruct (format_scan kw Text rest).
  - simpl in Hl. apply andb_true_iff in Hl as [Hc Hl].
    apply andb_true_iff in Hc as [Hc1 Hc2].
    apply negb_true_iff in Hc1, Hc2.
    cbn [app format_scan]. rewrite Hc1, Hc2, (IH Hl).
    now rewrite emit_emit.
Qed.

Lemma plain_app (a b : str) : plain (a ++ b) = plain a && plain b.
Proof. apply forallb_app. Qed.

Lemma plain_concat (xs : list str) :
  Forall (fun x => plain x = true) xs -> plain (concat xs) = true.
Proof.
  induction 1 as [|x xs Hx _ IH]; simpl; [reflexivity|].
  now rewrite plain_app, Hx, IH.
Qed.

Lemma plain_join_map (f : str -> str) (sep : str) (xs : list str) :
  plain sep = true ->
  Forall (fun x => plain (f x) = true) xs ->
  plain (join sep (map f xs)) = true.
Proof.
  intros Hsep H. destruct xs as [|x xs]; [reflexivity|].
  rewrite join_cons_map, plain_app.
  apply Forall_cons_iff in H as [Hx Hxs]. rewrite Hx. simpl.
  apply plain_concat. apply Forall_map.
  revert Hxs. apply Forall_impl. intros a Ha. now rewrite plain_app, Hsep, Ha.
Qed.

Lemma plain_on_conjunct (c : str) : plain c = true -> plain (on_conjunct c) = true.
Proof.
  intros H. unfold on_conjunct. rewrite !plain_app, H. reflexivity.
Qed.

Lemma plain_assignment (c : str) : plain c = true -> plain (assignment c) = true.
Proof.
  intros H. unfold assignment. rewrite !plain_app, H. reflexivity.
Qed.

Lemma plain_quoted (c : str) : plain c = true -> plain (quoted c) = true.
Proof.
  intros H. unfold quoted. rewrite !plain_app, H. reflexivity.
Qed.

Lemma plain_staged (c : str) : plain c = true -> plain (staged c) = true.
Proof.
  intros H. unfold staged. rewrite !plain_app, H. reflexivity.
Qed.

Lemma plain_clauses (pks cols : list str) :
  Forall (fun c => plain c = true) pks ->
  Forall (fun c => plain c = true) cols ->
  plain (on_clause pks ++ lit " " ++ update_clause cols ++ lit " "
         ++ insert_clause pks cols ++ lit ";") = true.
Proof.
  intros Hp Hc.
  assert (Hi : Forall (fun c => plain c = true) (inserted_columns pks cols)).
  { unfold inserted_columns. repeat apply Forall_cons; try reflexivity.
    now apply Forall_app. }
  assert (Hu : Forall (fun c => plain c = true) (updated_columns cols)).
  { unfold updated_columns. now apply Forall_cons. }
  unfold on_clause, update_clause, insert_clause, insert_column_list,
    insert_value_list.
  rewrite !plain_app.
  rewrite !plain_join_map; try reflexivity.
  - revert Hi. apply Forall_impl. exact plain_staged.
  - revert Hi. apply Forall_impl. exact plain_quoted.
  - revert Hu. apply Forall_impl. exact plain_assignment.
  - revert Hp. apply Forall_impl. exact plain_on_conjunct.
Qed.

Lemma format_head (schema tbl schema_tmp tbl_tmp rest : str) :
  format_scan (merge_kw schema tbl schema_tmp tbl_tmp) Text
    (lit "MERGE INTO {schema}.{tbl} target_tbl USING {schema_tmp}.{tbl_tmp} tmp " ++ rest)
  = emit (merge_head schema tbl schema_tmp tbl_tmp)
         (format_scan (merge_kw schema tbl schema_tmp tbl_tmp) Text rest).
Proof.
  set (kw := merge_kw schema tbl schema_tmp tbl_tmp).
    change (lit "MERGE INTO {schema}.{tbl} target_tbl USING {schema_tmp}.{tbl_tmp} tmp " ++ rest)
    with (lit "MERGE INTO " ++ lit "{schema}" ++ lit "." ++ lit "{tbl}"
          ++ lit " target_tbl USING " ++ lit "{schema_tmp}" ++ lit "." ++ lit "{tbl_tmp}"
          ++ lit " tmp " ++ rest).
  assert (F1 : forall r, format_scan kw Text (lit "{schema}" ++ r)
                         = emit schema (format_scan kw Text r)) by (intros; vm_compute; reflexivity).
  assert (F2 : forall r, format_scan kw Text (lit "{tbl}" ++ r)
                         = emit tbl (format_scan kw Text r)) by (intros; vm_compute; reflexivity).
  assert (F3 : forall r, format_scan kw Text (lit "{schema_tmp}" ++ r)
                         = emit schema_tmp (format_scan kw Text r)) by (intros; vm_compute; reflexivity).
  assert (F4 : forall r, format_scan kw Text (lit "{tbl_tmp}" ++ r)
                         = emit tbl_tmp (format_scan kw Text r))
    by (intros; vm_compute; reflexivity).
  rewrite (format_scan_plain kw (lit "MERGE INTO ")), F1 by reflexivity.
  rewrite (format_scan_plain kw (lit ".")), F2 by reflexivity.
  rewrite (format_scan_plain kw (lit " target_tbl USING ")), F3 by reflexivity.
  rewrite (format_scan_plain kw (lit ".")), F4 by reflexivity.
  rewrite (format_scan_plain kw (lit " tmp ")) by reflexivity.
  rewrite !emit_emit. unfold merge_head. now rewrite <- !app_assoc.
Qed.

Lemma format_scan_plain_all (kw : list (str * str)) (l : str) :
  plain l = true -> format_scan kw Text l = Ok l.
Proof.
  intros H. rewrite <- (app_nil_r l) at 1. rewrite format_scan_plain by assumption.
  cbn [format_scan emit]. now rewrite app_nil_r.
Qed.

(** With names free of braces, [format] fills in the four placeholders and
    leaves the rest of the template as it is. *)
Lemma merge_statement_text (pk schema tbl : str) (temp_schema temp_tbl : option str)
    (labels : list str) :
  Forall (fun c => plain c = true) (pk_list pk) ->
  Forall (fun c => plain c = true) (map strip labels) ->
  merge_statement pk schema tbl temp_schema temp_tbl labels
  = Ok (merge_text schema tbl (staging_schema schema temp_schema)
          (staging_table tbl temp_tbl) (pk_list pk)
          (cols_to_merge (pk_list pk) labels)).
Proof.
  intros Hp Hl. unfold merge_statement, format.
  rewrite template_shape.
  - change (filter _ (map strip labels)) with (cols_to_merge (pk_list pk) labels).
    rewrite format_head, format_scan_plain_all.
    + reflexivity.
    + apply plain_clauses; [assumption|].
      unfold cols_to_merge. apply Forall_forall. intros c Hc.
      apply filter_In in Hc as [Hc _]. revert c Hc. now apply Forall_forall.
  - apply pk_list_not_nil.
  - apply pk_list_trimmed.
  - apply Forall_forall. intros c Hc. apply in_map_iff in Hc as [x [E _]].
    subst. apply strip_idempotent.
Qed.

(** Whatever the names, a statement that [format] produces begins with the
    target and the staging location. *)
Lemma merge_statement_head (pk schema tbl : str) (temp_schema temp_tbl : option str)
    (labels : list str) (s : str) :
  merge_statement pk schema tbl temp_schema temp_tbl labels = Ok s ->
  exists rest,
    s = merge_head schema tbl (staging_schema schema temp_schema)
          (staging_table tbl temp_tbl) ++ lit "ON (" ++ rest.
Proof.
  unfold merge_statement, format. rewrite template_shape.
  - rewrite format_head. unfold on_clause. rewrite <- !app_assoc.
    rewrite (format_scan_plain _ (lit "ON (")) by reflexivity.
    rewrite emit_emit.
    destruct (format_scan _ Text _) as [r| |]; cbn [emit]; intros E; try discriminate E.
    injection E as <-. exists r. now rewrite <- app_assoc.
  - apply pk_list_not_nil.
  - apply pk_list_trimmed.
  - apply Forall_forall. intros c Hc. apply in_map_iff in Hc as [x [E _]].
    subst. apply strip_idempotent.
Qed.

(** ** Runs of [merge_tmp_into_target_tbl] *)

Ltac run_merge :=
  unfold merge_tmp_into_target_tbl, bind, get_logger, registered, log_info, execute,
    get_heap, import_from_pandas, modify_heap, lift, export_to_pandas, fresh, sent;
  cbn [calls log stdout heap registry app fst snd columns set_columns].

Section MergeRun.

Variable conn : connection.
Variable df : DataFrame.
Variables pk schema tbl : str.
Variables temp_schema temp_tbl : option str.

Local Notation tmp_schema := (staging_schema schema temp_schema).
Local Notation tmp_table := (staging_table tbl temp_tbl).
Local Notation run :=
  (merge_tmp_into_target_tbl conn pk schema tbl temp_schema temp_tbl (fresh df)).
Local Notation stmt :=
  (merge_statement pk schema tbl temp_schema temp_tbl (columns df)).
Local Notation stripped := (set_columns df (map strip (columns df))).

Lemma merge_truncate_fails (e : exn) :
  on_execute conn [] (lit "TRUNCATE TABLE " ++ tmp_schema ++ lit "." ++ tmp_table) = Some e ->
  fst run = Raise e /\ calls (snd run) = [truncate_call tmp_schema tmp_table]
  /\ heap (snd run) = df.
Proof.
  intros H. unfold staging_schema, staging_table in *.
  run_merge. rewrite H. auto.
Qed.

Lemma merge_import_fails (e : exn) :
  on_execute conn [] (lit "TRUNCATE TABLE " ++ tmp_schema ++ lit "." ++ tmp_table) = None ->
  on_import conn [truncate_call tmp_schema tmp_table] df tmp_schema tmp_table = Some e ->
  fst run = Raise e
  /\ calls (snd run) = [truncate_call tmp_schema tmp_table; ImportFromPandas df tmp_schema tmp_table]
  /\ heap (snd run) = df.
Proof.
  intros H1 H2. unfold truncate_call, staging_schema, staging_table in *.
  run_merge. rewrite H1. cbn [calls log stdout heap app fst snd]. rewrite H2. auto.
Qed.

Ltac loaded H :=
  destruct H as [H1 H2];
  unfold truncate_call, count_call, staging_schema, staging_table in *;
  cbn [app] in *; run_merge; rewrite H1; cbn [calls log stdout heap app fst snd]; rewrite H2;
  cbn [calls log stdout heap app fst snd columns set_columns];
  change (format _ _)
    with (merge_statement pk schema tbl temp_schema temp_tbl (columns df)).

Lemma merge_format_fails :
  loads conn df tmp_schema tmp_table ->
  (forall s, stmt <> Ok s) ->
  fst run = match stmt with Ok _ => Ok tt | Raise e => Raise e | Unmodelled => Unmodelled end
  /\ calls (snd run) = [truncate_call tmp_schema tmp_table; ImportFromPandas df tmp_schema tmp_table]
  /\ heap (snd run) = stripped.
Proof.
  intros H Hs. assert (Hs' := Hs). loaded H.
  destruct (merge_statement pk schema tbl temp_schema temp_tbl (columns df)) as [s| |];
    [now elim (Hs' s) | auto | auto].
Qed.

Lemma merge_execute_fails (s : str) (e : exn) :
  loads conn df tmp_schema tmp_table ->
  stmt = Ok s ->
  on_execute conn [truncate_call tmp_schema tmp_table; ImportFromPandas df tmp_schema tmp_table] s = Some e ->
  fst run = Raise e
  /\ calls (snd run) = [truncate_call tmp_schema tmp_table; ImportFromPandas df tmp_schema tmp_table; Execute s]
  /\ heap (snd run) = stripped.
Proof.
  intros H Hs He. assert (Hs' := Hs). loaded H. rewrite Hs'.
  cbn [calls log stdout heap app fst snd]. rewrite He. auto.
Qed.

Lemma merge_count_fails (s : str) (e : exn) :
  loads conn df tmp_schema tmp_table ->
  stmt = Ok s ->
  on_execute conn [truncate_call tmp_schema tmp_table; ImportFromPandas df tmp_schema tmp_table] s = None ->
  on_export conn [truncate_call tmp_schema tmp_table; ImportFromPandas df tmp_schema tmp_table; Execute s]
    (lit "SELECT COUNT(*) AS COUNT_ROWS FROM " ++ schema ++ lit "." ++ tbl ++ lit " "
     ++ [10]
     ++ lit "                                    WHERE TO_DATE(UPDATE_TIMESTAMP) = CURRENT_DATE;")
  = inl e ->
  fst run = Raise e
  /\ calls (snd run) = [truncate_call tmp_schema tmp_table; ImportFromPandas df tmp_schema tmp_table; Execute s;
                        count_call schema tbl]
  /\ heap (snd run) = stripped.
Proof.
  intros H Hs He Hc. assert (Hs' := Hs). loaded H. rewrite Hs'.
  cbn [calls log stdout heap app fst snd]. rewrite He.
  cbn [calls log stdout heap app fst snd]. rewrite Hc. auto.
Qed.

Lemma merge_counted (s : str) (check_df : DataFrame) :
  loads conn df tmp_schema tmp_table ->
  stmt = Ok s ->
  on_execute conn [truncate_call tmp_schema tmp_table; ImportFromPandas df tmp_schema tmp_table] s = None ->
  on_export conn [truncate_call tmp_schema tmp_table; ImportFromPandas df tmp_schema tmp_table; Execute s]
    (lit "SELECT COUNT(*) AS COUNT_ROWS FROM " ++ schema ++ lit "." ++ tbl ++ lit " "
     ++ [10]
     ++ lit "                                    WHERE TO_DATE(UPDATE_TIMESTAMP) = CURRENT_DATE;")
  = inr check_df ->
  fst run = match frame_item0 check_df (lit "COUNT_ROWS") with
            | Ok _ => Ok tt
            | Raise e => Raise e
            | Unmodelled => Unmodelled
            end
  /\ calls (snd run) = [truncate_call tmp_schema tmp_table; ImportFromPandas df tmp_schema tmp_table; Execute s;
                        count_call schema tbl]
  /\ heap (snd run) = stripped.
Proof.
  intros H Hs He Hc. assert (Hs' := Hs). loaded H. rewrite Hs'.
  cbn [calls log stdout heap app fst snd]. rewrite He.
  cbn [calls log stdout heap app fst snd]. rewrite Hc.
  destruct (frame_item0 check_df (lit "COUNT_ROWS")); auto.
Qed.

End MergeRun.

(** ** Runs of [print_merge_query] *)

Section PrintRun.

Variable environ : str -> option str.
Variable pyexasol_connect : option str -> option str -> option str -> exn + connection.
Variables pk schema tbl : str.
Variables temp_schema temp_tbl : option str.

Local Notation tmp_schema := (staging_schema schema temp_schema).
Local Notation tmp_table := (staging_table tbl temp_tbl).
Local Notation run :=
  (print_merge_query environ pyexasol_connect pk schema tbl temp_schema temp_tbl
     (fresh tt)).
Local Notation connected :=
  (pyexasol_connect (environ (lit "DWHEXA_USER")) (environ (lit "DWHEXA_PASSWORD"))
     (environ (lit "DWHEXA_HOST"))).

Ltac run_print :=
  unfold select_call, staging_schema, staging_table in *;
  unfold print_merge_query, return_exa_conn, bind, get_logger, registered, ret,
    log_info, lift, export_to_pandas, print, fresh, sent;
  cbn [calls log stdout heap registry app fst snd columns set_columns].

Lemma print_connect_fails (e : exn) :
  connected = inl e ->
  fst run = Raise e /\ calls (snd run) = [] /\ stdout (snd run) = [].
Proof.
  intros H. run_print. rewrite H. auto.
Qed.

Lemma print_select_fails (conn : connection) (e : exn) :
  connected = inr conn ->
  on_export conn [] (lit "SELECT * FROM " ++ tmp_schema ++ lit "." ++ tmp_table) = inl e ->
  fst run = Raise e
  /\ calls (snd run) = [select_call tmp_schema tmp_table]
  /\ stdout (snd run) = [].
Proof.
  intros H He. run_print. rewrite H.
  cbn [calls log stdout heap app fst snd]. rewrite He. auto.
Qed.

Lemma print_selected (conn : connection) (fetched : DataFrame) :
  connected = inr conn ->
  on_export conn [] (lit "SELECT * FROM " ++ tmp_schema ++ lit "." ++ tmp_table)
  = inr fetched ->
  let stmt := merge_statement pk schema tbl temp_schema temp_tbl (columns fetched) in
  fst run = match stmt with Ok _ => Ok tt | Raise e => Raise e | Unmodelled => Unmodelled end
  /\ calls (snd run) = [select_call tmp_schema tmp_table]
  /\ stdout (snd run) = match stmt with Ok s => [s] | _ => [] end.
Proof.
  intros H He stmt. subst stmt. run_print. rewrite H.
  cbn [calls log stdout heap app fst snd]. rewrite He.
  cbn [calls log stdout heap app fst snd columns set_columns].
  change (format _ _)
    with (merge_statement pk schema tbl temp_schema temp_tbl (columns fetched)).
  destruct (merge_statement pk schema tbl temp_schema temp_tbl (columns fetched)); auto.
Qed.

Lemma print_printed (s : str) :
  stdout (snd run) = [s] ->
  exists conn fetched,
    connected = inr conn
    /\ on_export conn [] (lit "SELECT * FROM " ++ tmp_schema ++ lit "." ++ tmp_table)
       = inr fetched
    /\ merge_statement pk schema tbl temp_schema temp_tbl (columns fetched) = Ok s.
Proof.
  intros P. destruct connected as [e|conn] eqn:Hc.
  { destruct (print_connect_fails e Hc) as [_ [_ O]]. rewrite O in P. discriminate P. }
  destruct (on_export conn [] (lit "SELECT * FROM " ++ tmp_schema ++ lit "." ++ tmp_table))
    as [e|fetched] eqn:He.
  { destruct (print_select_fails conn e Hc He) as [_ [_ O]]. rewrite O in P.
    discriminate P. }
  destruct (print_selected conn fetched Hc He) as [_ [_ O]].
  cbv zeta in O. rewrite O in P. exists conn, fetched.
  split; [first [reflexivity | exact Hc]|]. split; [first [reflexivity | exact He]|].
  destruct (merge_statement pk schema tbl temp_schema temp_tbl (columns fetched));
    try discriminate P. now injection P as ->.
Qed.

End PrintRun.

(** ** Reading the insert clause back *)

Lemma read_prefix (prefix todo rest : str) :
  read_items prefix (AtItem todo) (todo ++ rest)
  = read_items prefix (AtItem []) rest.
Proof.
  induction todo as [|p todo IH].
  - reflexivity.
  - cbn [app read_items]. now rewrite N.eqb_refl.
Qed.

Lemma read_name (prefix acc c rest : str) :
  quote_free c = true ->
  read_items prefix (InName acc) (c ++ dquote :: rest)
  = option_map (cons (acc ++ c)) (read_items prefix AfterItem rest).
Proof.
  revert acc. induction c as [|x c IH]; intros acc H.
  - cbn [app read_items]. rewrite N.eqb_refl. now rewrite app_nil_r.
  - simpl in H. apply andb_true_iff in H as [Hx Hc]. apply negb_true_iff in Hx.
    cbn [app read_items]. rewrite Hx, (IH _ Hc). now rewrite <- app_assoc.
Qed.

Lemma read_item (prefix c rest : str) :
  quote_free c = true ->
  read_items prefix (AtItem prefix) (prefix ++ quoted c ++ rest)
  = option_map (cons c) (read_items prefix AfterItem rest).
Proof.
  intros H. rewrite read_prefix. unfold quoted. rewrite <- !app_assoc.
  cbn [app read_items]. rewrite N.eqb_refl.
  now rewrite (read_name prefix [] c rest H).
Qed.

Lemma read_more (prefix : str) (xs : list str) :
  Forall (fun c => quote_free c = true) xs ->
  read_items prefix AfterItem
    (concat (map (fun c => lit ", " ++ prefix ++ quoted c) xs))
  = Some xs.
Proof.
  induction 1 as [|x xs Hx _ IH]; [reflexivity|].
  cbn [map concat]. rewrite <- !app_assoc.
  change (lit ", " ++ prefix ++ quoted x ++ ?r) with (44 :: 32 :: prefix ++ quoted x ++ r).
  cbn [read_items]. change (44 =? comma) with true. change (32 =? 32) with true.
  cbv iota. rewrite read_item by assumption. now rewrite IH.
Qed.

(** A list of quoted names, none holding a quote, is read back as it was. *)
Lemma read_column_list_join (prefix : str) (xs : list str) :
  Forall (fun c => quote_free c = true) xs ->
  read_column_list prefix (join (lit ", ") (map (fun c => prefix ++ quoted c) xs))
  = Some xs.
Proof.
  intros H. destruct xs as [|x xs]; [reflexivity|].
  apply Forall_cons_iff in H as [Hx Hxs].
  rewrite (join_cons_map (fun c => prefix ++ quoted c)).
  assert (E : forall r, read_column_list prefix (prefix ++ quoted x ++ r)
                        = read_items prefix (AtItem prefix) (prefix ++ quoted x ++ r)).
  { intros r. unfold read_column_list.
    destruct (prefix ++ quoted x ++ r) eqn:E; [|reflexivity].
    apply app_eq_nil in E as [_ E]. discriminate E. }
  rewrite <- app_assoc, E, read_item by assumption.
  now rewrite (read_more prefix xs Hxs).
Qed.

(** ** Reading the comparisons of a clause back *)

Lemma until_quote_name (c rest : str) :
  quote_free c = true -> until_quote (c ++ dquote :: rest) = Some (c, rest).
Proof.
  induction c as [|x c IH]; intros H.
  - reflexivity.
  - simpl in H. apply andb_true_iff in H as [Hx Hc]. apply negb_true_iff in Hx.
    cbn [app until_quote]. now rewrite Hx, (IH Hc).
Qed.

Lemma read_comparison_on_conjunct (c rest : str) :
  quote_free c = true ->
  read_comparison (on_conjunct c ++ rest) = Some (same_name c, rest).
Proof.
  intros H. unfold read_comparison, on_conjunct. rewrite <- !app_assoc.
  rewrite expect_app.
  change (qlit "' = tmp.'" ++ c ++ qlit "'" ++ rest)
    with (dquote :: qlit " = tmp.'" ++ c ++ dquote :: rest).
  rewrite (until_quote_name c _ H), expect_app.
  now rewrite (until_quote_name c _ H).
Qed.

Lemma read_comparisons_join (sep rest : str) (xs : list str) :
  Forall (fun c => quote_free c = true) xs ->
  expect sep rest = None ->
  forall (x : str) (fuel : nat),
    quote_free x = true ->
    (length (x :: xs) <= fuel)%nat ->
    read_comparisons fuel sep (join sep (map on_conjunct (x :: xs)) ++ rest)
    = (map same_name (x :: xs), rest).
Proof.
  intros Hxs Hr. induction Hxs as [|y ys Hy _ IH]; intros x fuel Hx Hf.
  - destruct fuel as [|fuel]; [simpl in Hf; lia|].
    cbn [map join read_comparisons].
    now rewrite (read_comparison_on_conjunct x rest Hx), Hr.
  - destruct fuel as [|fuel]; [simpl in Hf; lia|].
    change (join sep (map on_conjunct (x :: y :: ys)))
      with (on_conjunct x ++ sep ++ join sep (map on_conjunct (y :: ys))).
    rewrite <- !app_assoc. cbn [read_comparisons].
    rewrite (read_comparison_on_conjunct x _ Hx), expect_app.
    rewrite (IH y fuel Hy) by (simpl in *; lia). reflexivity.
Qed.

Lemma on_conjunct_length (c : str) : (1 <= length (on_conjunct c))%nat.
Proof.
  unfold on_conjunct. rewrite length_app.
  change (length (qlit "target_tbl.'")) with 12%nat. lia.
Qed.

Lemma join_on_conjunct_length (sep : str) (xs : list str) :
  (length xs <= length (join sep (map on_conjunct xs)))%nat.
Proof.
  induction xs as [|x xs IH]; [simpl; lia|].
  pose proof (on_conjunct_length x) as L.
  destruct xs as [|y ys].
  - cbn [map join length]. lia.
  - change (join sep (map on_conjunct (x :: y :: ys)))
      with (on_conjunct x ++ sep ++ join sep (map on_conjunct (y :: ys))).
    rewrite !length_app. cbn [length] in *. lia.
Qed.

(** Names without a double quote are read back from the ON clause, each on
    both sides of its comparison. *)
Lemma read_on_clause_names (pks : list str) :
  pks <> [] ->
  Forall (fun c => quote_free c = true) pks ->
  read_on_clause (on_clause pks) = Some (map same_name pks, lit ")").
Proof.
  intros Hne H. destruct pks as [|x xs]; [congruence|].
  apply Forall_cons_iff in H as [Hx Hxs].
  unfold read_on_clause, on_clause. rewrite expect_app. cbn [option_map]. f_equal.
  unfold comparisons. apply read_comparisons_join; try assumption; [reflexivity|].
  rewrite length_app. pose proof (join_on_conjunct_length (lit " AND ") (x :: xs)). lia.
Qed.

(** And so are the assignments of the update clause. *)
Lemma read_update_clause_names (cols : list str) :
  Forall (fun c => quote_free c = true) cols ->
  read_update_clause (update_clause cols)
  = Some (map same_name (updated_columns cols), []).
Proof.
  intros H. unfold read_update_clause, update_clause, updated_columns.
  rewrite expect_app. cbn [option_map]. f_equal. unfold comparisons.
  change (map assignment (UPDATE_TIMESTAMP :: cols))
    with (map on_conjunct (UPDATE_TIMESTAMP :: cols)).
  rewrite <- (app_nil_r (join _ _)) at 2.
  rewrite <- (app_nil_r (join _ _)) at 1.
  apply read_comparisons_join; try assumption; try reflexivity.
  rewrite app_nil_r.
  apply (join_on_conjunct_length (lit ", ") (UPDATE_TIMESTAMP :: cols)).
Qed.

(** ** Every run, case by case *)

Lemma merge_statement_labels (pk pk' schema tbl : str) (temp_schema temp_tbl : option str)
    (labels labels' : list str) :
  pk_list pk' = pk_list pk ->
  map strip labels' = map strip labels ->
  merge_statement pk' schema tbl temp_schema temp_tbl labels'
  = merge_statement pk schema tbl temp_schema temp_tbl labels.
Proof.
  intros Hp Hl. unfold merge_statement. now rewrite Hp, Hl.
Qed.

Section MergeCases.

Variable conn : connection.
Variable df : DataFrame.
Variables pk schema tbl : str.
Variables temp_schema temp_tbl : option str.

Local Notation tmp_schema := (staging_schema schema temp_schema).
Local Notation tmp_table := (staging_table tbl temp_tbl).
Local Notation run :=
  (merge_tmp_into_target_tbl conn pk schema tbl temp_schema temp_tbl (fresh df)).
Local Notation stmt :=
  (merge_statement pk schema tbl temp_schema temp_tbl (columns df)).
Local Notation stripped := (set_columns df (map strip (columns df))).
Local Notation truncated := (truncate_call tmp_schema tmp_table).
Local Notation imported := (ImportFromPandas df tmp_schema tmp_table).

Lemma merge_run_cases :
  (exists e, fst run = Raise e /\ calls (snd run) = [truncated] /\ heap (snd run) = df
             /\ on_execute conn [] (lit "TRUNCATE TABLE " ++ tmp_schema ++ lit "." ++ tmp_table)
                = Some e)
  \/ (exists e, fst run = Raise e /\ calls (snd run) = [truncated; imported]
                /\ heap (snd run) = df
                /\ on_import conn [truncated] df tmp_schema tmp_table = Some e)
  \/ (loads conn df tmp_schema tmp_table /\ heap (snd run) = stripped
      /\ ((fst run <> Ok tt /\ calls (snd run) = [truncated; imported]
           /\ forall s, stmt <> Ok s)
          \/ exists s, stmt = Ok s
               /\ ((exists e, fst run = Raise e
                      /\ calls (snd run) = [truncated; imported; Execute s]
                      /\ on_execute conn [truncated; imported] s = Some e)
                   \/ (on_execute conn [truncated; imported] s = None
                       /\ calls (snd run)
                          = [truncated; imported; Execute s; count_call schema tbl]
                       /\ ((exists e, fst run = Raise e)
                           \/ (fst run = Ok tt
                               /\ exists check_df,
                                    on_export conn [truncated; imported; Execute s]
                                      (lit "SELECT COUNT(*) AS COUNT_ROWS FROM "
                                       ++ schema ++ lit "." ++ tbl ++ lit " " ++ [10]
                                       ++ lit "                                    WHERE TO_DATE(UPDATE_TIMESTAMP) = CURRENT_DATE;")
                                    = inr check_df)))))).
Proof.
  destruct (on_execute conn [] (lit "TRUNCATE TABLE " ++ tmp_schema ++ lit "." ++ tmp_table))
    as [e|] eqn:Ht.
  { left. exists e. destruct (merge_truncate_fails conn df pk schema tbl temp_schema temp_tbl e Ht) as [A [B C]]. auto. }
  right.
  destruct (on_import conn [truncated] df tmp_schema tmp_table) as [e|] eqn:Hi.
  { left. exists e. destruct (merge_import_fails conn df pk schema tbl temp_schema temp_tbl e Ht Hi) as [A [B C]]. auto. }
  right.
  assert (L : loads conn df tmp_schema tmp_table) by (split; assumption).
  split; [exact L|].
  destruct stmt as [s| |] eqn:Hs.
  - destruct (on_execute conn [truncated; imported] s) as [e|] eqn:He.
    { destruct (merge_execute_fails conn df pk schema tbl temp_schema temp_tbl s e L Hs He) as [A [B C]].
      split; [exact C|]. right. exists s. split; [reflexivity|]. left. exists e. auto. }
    destruct (on_export conn [truncated; imported; Execute s]
                (lit "SELECT COUNT(*) AS COUNT_ROWS FROM "
                 ++ schema ++ lit "." ++ tbl ++ lit " " ++ [10]
                 ++ lit "                                    WHERE TO_DATE(UPDATE_TIMESTAMP) = CURRENT_DATE;"))
      as [e|check_df] eqn:Hc.
    + destruct (merge_count_fails conn df pk schema tbl temp_schema temp_tbl s e L Hs He Hc) as [A [B C]].
      split; [exact C|]. right. exists s. split; [reflexivity|]. right.
      repeat split; try assumption. left. now exists e.
    + destruct (merge_counted conn df pk schema tbl temp_schema temp_tbl s check_df L Hs He Hc) as [A [B C]].
      split; [exact C|]. right. exists s. split; [reflexivity|]. right.
      repeat split; try assumption.
      destruct (frame_item0 check_df (lit "COUNT_ROWS")) as [v|e|] eqn:Hf.
      * right. split; [exact A|]. now exists check_df.
      * left. now exists e.
      * exfalso. unfold frame_item0 in Hf.
        destruct (positions (lit "COUNT_ROWS") (columns check_df) 0) as [|j [|? ?]];
          try discriminate.
        destruct (rows check_df) as [|r ?]; try discriminate.
        destruct (nth_error r j); discriminate.
  - assert (N : forall s, stmt <> Ok s) by (intros s; rewrite Hs; discriminate).
    destruct (merge_format_fails conn df pk schema tbl temp_schema temp_tbl L N) as [A [B C]].
    split; [exact C|]. left. repeat split; try assumption; try discriminate.
    rewrite A, Hs. discriminate.
  - assert (N : forall s, stmt <> Ok s) by (intros s; rewrite Hs; discriminate).
    destruct (merge_format_fails conn df pk schema tbl temp_schema temp_tbl L N) as [A [B C]].
    split; [exact C|]. left. repeat split; try assumption; try discriminate.
    rewrite A, Hs. discriminate.
Qed.

Lemma merge_third_call :
  loads conn df tmp_schema tmp_table ->
  nth_error (calls (snd run)) 2
  = match stmt with Ok s => Some (Execute s) | _ => None end.
Proof.
  intros [Ht Hi].
  destruct merge_run_cases as [[e [_ [_ [_ E]]]] | [[e [_ [_ [_ E]]]] | [_ [_ C]]]];
    [congruence | congruence |].
  destruct C as [[_ [Hc N]] | [s [Hs C]]].
  - rewrite Hc. destruct stmt as [s| |]; [now elim (N s) | reflexivity | reflexivity].
  - rewrite Hs. destruct C as [[e [_ [Hc _]]] | [_ [Hc _]]]; now rewrite Hc.
Qed.

Lemma merge_third_statement (s : str) :
  nth_error (calls (snd run)) 2 = Some (Execute s) -> stmt = Ok s.
Proof.
  destruct merge_run_cases as [[e [_ [E _]]] | [[e [_ [E _]]] | [_ [_ C]]]].
  - rewrite E. discriminate.
  - rewrite E. discriminate.
  - destruct C as [[_ [E _]] | [s0 [Hs [[e [_ [E _]]] | [_ [E _]]]]]]; rewrite E.
    + discriminate.
    + cbn. intros [= ->]. exact Hs.
    + cbn. intros [= ->]. exact Hs.
Qed.

End MergeCases.

(** * The claims *)

(** ** The deployment gate *)

(** C10. For an [env] that is a string other than ['prod'] and ['dev'],
    [deployment] returns normally whatever the two flags are; for [env = None]
    it either returns or exits, and it exits only when both flags are
    [False]. *)
Theorem deployment_exits_only_where_named {H : Type} (prod dev : bool) (w : world H) :
  (forall env : str, env <> lit "prod" -> env <> lit "dev" ->
     fst (deployment (Some env) prod dev w) = Ok tt)
  /\ (fst (deployment None prod dev w) = Raise SystemExit -> prod = false /\ dev = false)
  /\ (fst (deployment None prod dev w) = Ok tt
      \/ fst (deployment None prod dev w) = Raise SystemExit).
Proof.
  split; [|split].
  - intros env Hp Hd. unfold deployment, try_except, env_eq.
    apply str_eqb_neq in Hp, Hd. rewrite Hp, Hd.
    destruct prod, dev; reflexivity.
  - destruct prod, dev; try discriminate. auto.
  - destruct prod, dev; (left; reflexivity) || (right; reflexivity).
Qed.

Lemma deployment_exits_only_where_named_witness :
  fst (deployment (Some (lit "staging")) false false (fresh tt)) = Ok tt
  /\ (false = false /\ false = false).
Proof.
  destruct (deployment_exits_only_where_named false false (fresh tt)) as [A [B _]].
  split.
  - apply A; discriminate.
  - apply B. reflexivity.
Defined.

(** ** The staging location *)

(** C8. Both functions use the staging location
    [(target_schema + "_TMP", target_table)] when no override is given, and
    each override replaces its own half only.  That location is the one
    [merge_tmp_into_target_tbl] truncates and loads, the one
    [print_merge_query] selects from, and the one that follows [USING] in
    every statement the first executes and the second prints. *)
Theorem staging_location_used (conn : connection) (df : DataFrame)
    (environ : str -> option str)
    (pyexasol_connect : option str -> option str -> option str -> exn + connection)
    (pk schema tbl : str) (temp_schema temp_tbl : option str) :
  let sch := staging_schema schema temp_schema in
  let tab := staging_table tbl temp_tbl in
  let merged :=
    merge_tmp_into_target_tbl conn pk schema tbl temp_schema temp_tbl (fresh df) in
  let printed :=
    print_merge_query environ pyexasol_connect pk schema tbl temp_schema temp_tbl
      (fresh tt) in
  let head :=
    lit "MERGE INTO " ++ schema ++ lit "." ++ tbl ++ lit " target_tbl USING "
    ++ sch ++ lit "." ++ tab ++ lit " tmp ON (" in
  (sch, tab) = match temp_schema, temp_tbl with
               | None, None => (schema ++ lit "_TMP", tbl)
               | Some s, None => (s, tbl)
               | None, Some t => (schema ++ lit "_TMP", t)
               | Some s, Some t => (s, t)
               end
  /\ (exists more, calls (snd merged) = truncate_call sch tab :: more)
  /\ (on_execute conn [] (lit "TRUNCATE TABLE " ++ sch ++ lit "." ++ tab) = None ->
      exists more,
        calls (snd merged)
        = truncate_call sch tab :: ImportFromPandas df sch tab :: more)
  /\ (forall c,
        pyexasol_connect (environ (lit "DWHEXA_USER")) (environ (lit "DWHEXA_PASSWORD"))
          (environ (lit "DWHEXA_HOST")) = inr c ->
        calls (snd printed) = [select_call sch tab])
  /\ (forall s, nth_error (calls (snd merged)) 2 = Some (Execute s) ->
        exists rest, s = head ++ rest)
  /\ (forall s, stdout (snd printed) = [s] -> exists rest, s = head ++ rest)
  /\ (Forall (fun c => plain c = true) (pk_list pk) ->
      Forall (fun c => plain c = true) (map strip (columns df)) ->
      loads conn df sch tab ->
      exists rest, nth_error (calls (snd merged)) 2 = Some (Execute (head ++ rest)))
  /\ (forall c fetched,
        Forall (fun c => plain c = true) (pk_list pk) ->
        Forall (fun c => plain c = true) (map strip (columns fetched)) ->
        pyexasol_connect (environ (lit "DWHEXA_USER")) (environ (lit "DWHEXA_PASSWORD"))
          (environ (lit "DWHEXA_HOST")) = inr c ->
        on_export c [] (lit "SELECT * FROM " ++ sch ++ lit "." ++ tab) = inr fetched ->
        exists rest, stdout (snd printed) = [head ++ rest]).
Proof.
  intros sch tab merged printed head.
  assert (Hd : forall labels s,
             merge_statement pk schema tbl temp_schema temp_tbl labels = Ok s ->
             exists rest, s = head ++ rest).
  { intros labels s Hs. destruct (merge_statement_head _ _ _ _ _ _ _ Hs) as [rest E].
    exists rest. rewrite E. subst head sch tab. unfold merge_head.
    now rewrite <- !app_assoc. }
  split; [|split; [|split; [|split; [|split; [|split; [|split]]]]]].
  - subst sch tab. destruct temp_schema, temp_tbl; reflexivity.
  - destruct (merge_run_cases conn df pk schema tbl temp_schema temp_tbl)
      as [[e [_ [E _]]] | [[e [_ [E _]]] | [_ [_ C]]]].
    + eexists. exact E.
    + eexists. exact E.
    + destruct C as [[_ [E _]] | [s [_ [[e [_ [E _]]] | [_ [E _]]]]]];
        eexists; exact E.
  - intros Ht.
    destruct (merge_run_cases conn df pk schema tbl temp_schema temp_tbl)
      as [[e [_ [_ [_ E]]]] | [[e [_ [E _]]] | [_ [_ C]]]].
    + subst sch tab. congruence.
    + eexists. exact E.
    + destruct C as [[_ [E _]] | [s [_ [[e [_ [E _]]] | [_ [E _]]]]]];
        eexists; exact E.
  - intros c Hc.
    destruct (on_export c [] (lit "SELECT * FROM " ++ sch ++ lit "." ++ tab))
      as [e|fetched] eqn:He.
    + now destruct (print_select_fails environ pyexasol_connect pk schema tbl
                      temp_schema temp_tbl c e Hc He) as [_ [E _]].
    + now destruct (print_selected environ pyexasol_connect pk schema tbl
                      temp_schema temp_tbl c fetched Hc He) as [_ [E _]].
  - intros s Hs. apply (Hd (columns df)).
    exact (merge_third_statement conn df pk schema tbl temp_schema temp_tbl s Hs).
  - intros s Hs.
    destruct (print_printed environ pyexasol_connect pk schema tbl temp_schema temp_tbl
                s Hs) as [c [fetched [_ [_ E]]]].
    exact (Hd (columns fetched) s E).
  - intros Hp Hl L.
    pose proof (merge_statement_text pk schema tbl temp_schema temp_tbl (columns df)
                  Hp Hl) as S.
    destruct (Hd _ _ S) as [rest E]. exists rest. rewrite <- E.
    subst merged. rewrite merge_third_call by exact L. now rewrite S.
  - intros c fetched Hp Hl Hc He.
    pose proof (merge_statement_text pk schema tbl temp_schema temp_tbl (columns fetched)
                  Hp Hl) as S.
    destruct (Hd _ _ S) as [rest E]. exists rest. rewrite <- E.
    destruct (print_selected environ pyexasol_connect pk schema tbl temp_schema temp_tbl
                c fetched Hc He) as [_ [_ O]].
    cbv zeta in O. subst printed. rewrite O. now rewrite S.
Qed.

Lemma staging_location_used_witness :
  (exists more,
     calls (snd (merge_tmp_into_target_tbl friendly (lit "BRAND, CATEGORY")
                   (lit "STAGE") (lit "T") None (Some (lit "T_LOAD")) (fresh brands)))
     = truncate_call (lit "STAGE_TMP") (lit "T_LOAD")
       :: ImportFromPandas brands (lit "STAGE_TMP") (lit "T_LOAD") :: more)
  /\ calls (snd (print_merge_query no_environ (connect_to staging)
                   (lit "BRAND, CATEGORY") (lit "STAGE") (lit "T") None
                   (Some (lit "T_LOAD")) (fresh tt)))
     = [select_call (lit "STAGE_TMP") (lit "T_LOAD")]
  /\ (exists rest,
        nth_error
          (calls (snd (merge_tmp_into_target_tbl friendly (lit "BRAND, CATEGORY")
                         (lit "STAGE") (lit "T") None (Some (lit "T_LOAD"))
                         (fresh brands)))) 2
        = Some (Execute (lit "MERGE INTO STAGE.T target_tbl USING STAGE_TMP.T_LOAD tmp ON ("
                         ++ rest)))
  /\ (exists rest,
        stdout (snd (print_merge_query no_environ (connect_to staging)
                       (lit "BRAND, CATEGORY") (lit "STAGE") (lit "T") None
                       (Some (lit "T_LOAD")) (fresh tt)))
        = [lit "MERGE INTO STAGE.T target_tbl USING STAGE_TMP.T_LOAD tmp ON (" ++ rest]).
Proof.
  destruct (staging_location_used friendly brands no_environ (connect_to staging)
              (lit "BRAND, CATEGORY") (lit "STAGE") (lit "T") None (Some (lit "T_LOAD")))
    as [_ [_ [A [B [_ [_ [C D]]]]]]].
  split; [|split; [|split]].
  - apply A. reflexivity.
  - apply (B staging). reflexivity.
  - destruct C as [rest E].
    + vm_compute. repeat constructor.
    + vm_compute. repeat constructor.
    + split; reflexivity.
    + exists rest. exact E.
  - destruct (D staging brands) as [rest E].
    + vm_compute. repeat constructor.
    + vm_compute. repeat constructor.
    + reflexivity.
    + reflexivity.
    + exists rest. exact E.
Defined.

(** ** The caller's dataframe *)

(** C9. [merge_tmp_into_target_tbl] changes its dataframe argument in place
    and in one way only: once the truncate and the bulk load have succeeded
    (so whenever the call returns normally) every label is replaced by its
    stripped form, in the same order; the rows are never touched, and before
    that point the object is as the caller passed it. *)
Theorem merge_strips_labels_in_place (conn : connection) (df : DataFrame)
    (pk schema tbl : str) (temp_schema temp_tbl : option str) :
  let run :=
    merge_tmp_into_target_tbl conn pk schema tbl temp_schema temp_tbl (fresh df) in
  let after := heap (snd run) in
  rows after = rows df
  /\ (after = df \/ after = set_columns df (map strip (columns df)))
  /\ (loads conn df (staging_schema schema temp_schema) (staging_table tbl temp_tbl) ->
      columns after = map strip (columns df))
  /\ (fst run = Ok tt -> columns after = map strip (columns df)).
Proof.
  intros run after. subst run after.
  destruct (merge_run_cases conn df pk schema tbl temp_schema temp_tbl)
    as [[e [A [_ [E F]]]] | [[e [A [_ [E F]]]] | [L [E _]]]]; rewrite E.
  - repeat split; auto.
    + intros [L _]. congruence.
    + intros R. rewrite A in R. discriminate.
  - repeat split; auto.
    + intros [_ L]. congruence.
    + intros R. rewrite A in R. discriminate.
  - repeat split; auto.
Qed.

Lemma merge_strips_labels_in_place_witness :
  columns (heap (snd (merge_tmp_into_target_tbl friendly (lit "BRAND, CATEGORY")
                        (lit "STAGE") (lit "T") None None (fresh brands))))
  = [lit "BRAND"; lit "CATEGORY"; lit "PRICE"; lit "INSERT_TIMESTAMP";
     lit "UPDATE_TIMESTAMP"].
Proof.
  destruct (merge_strips_labels_in_place friendly brands (lit "BRAND, CATEGORY")
              (lit "STAGE") (lit "T") None None) as [_ [_ [_ A]]].
  apply A. reflexivity.
Defined.

(** ** Failures *)

(** C7. Whatever the connection raises, at the truncate, the bulk load, the
    merge or the count, is what the call raises; the failing request is the
    last one sent, each earlier step was requested once, and no later one is.
    A call that returns normally has had all four requests answered with
    success. *)
Theorem merge_failure_propagates (conn : connection) (df : DataFrame)
    (pk schema tbl : str) (temp_schema temp_tbl : option str) :
  let sch := staging_schema schema temp_schema in
  let tab := staging_table tbl temp_tbl in
  let run :=
    merge_tmp_into_target_tbl conn pk schema tbl temp_schema temp_tbl (fresh df) in
  let truncation := lit "TRUNCATE TABLE " ++ sch ++ lit "." ++ tab in
  let counting :=
    lit "SELECT COUNT(*) AS COUNT_ROWS FROM " ++ schema ++ lit "." ++ tbl ++ lit " "
    ++ [10]
    ++ lit "                                    WHERE TO_DATE(UPDATE_TIMESTAMP) = CURRENT_DATE;" in
  (forall e, on_execute conn [] truncation = Some e ->
     fst run = Raise e /\ calls (snd run) = [Execute truncation])
  /\ (forall e, on_execute conn [] truncation = None ->
        on_import conn [Execute truncation] df sch tab = Some e ->
        fst run = Raise e
        /\ calls (snd run) = [Execute truncation; ImportFromPandas df sch tab])
  /\ (forall s e, loads conn df sch tab ->
        merge_statement pk schema tbl temp_schema temp_tbl (columns df) = Ok s ->
        on_execute conn [Execute truncation; ImportFromPandas df sch tab] s = Some e ->
        fst run = Raise e
        /\ calls (snd run)
           = [Execute truncation; ImportFromPandas df sch tab; Execute s])
  /\ (forall s e, loads conn df sch tab ->
        merge_statement pk schema tbl temp_schema temp_tbl (columns df) = Ok s ->
        on_execute conn [Execute truncation; ImportFromPandas df sch tab] s = None ->
        on_export conn [Execute truncation; ImportFromPandas df sch tab; Execute s]
          counting = inl e ->
        fst run = Raise e
        /\ calls (snd run)
           = [Execute truncation; ImportFromPandas df sch tab; Execute s;
              ExportToPandas counting])
  /\ (fst run = Ok tt ->
      exists s check_df,
        loads conn df sch tab
        /\ on_execute conn [Execute truncation; ImportFromPandas df sch tab] s = None
        /\ on_export conn [Execute truncation; ImportFromPandas df sch tab; Execute s]
             counting = inr check_df
        /\ calls (snd run)
           = [Execute truncation; ImportFromPandas df sch tab; Execute s;
              ExportToPandas counting]).
Proof.
  intros sch tab run truncation counting. subst sch tab run truncation counting.
  repeat split.
  - now destruct (merge_truncate_fails conn df pk schema tbl temp_schema temp_tbl e H).
  - now destruct (merge_truncate_fails conn df pk schema tbl temp_schema temp_tbl e H)
      as [_ [E _]].
  - now destruct (merge_import_fails conn df pk schema tbl temp_schema temp_tbl e H H0).
  - now destruct (merge_import_fails conn df pk schema tbl temp_schema temp_tbl e H H0)
      as [_ [E _]].
  - now destruct (merge_execute_fails conn df pk schema tbl temp_schema temp_tbl s e
                    H H0 H1).
  - now destruct (merge_execute_fails conn df pk schema tbl temp_schema temp_tbl s e
                    H H0 H1) as [_ [E _]].
  - now destruct (merge_count_fails conn df pk schema tbl temp_schema temp_tbl s e
                    H H0 H1 H2).
  - now destruct (merge_count_fails conn df pk schema tbl temp_schema temp_tbl s e
                    H H0 H1 H2) as [_ [E _]].
  - intros R.
    destruct (merge_run_cases conn df pk schema tbl temp_schema temp_tbl)
      as [[e [A _]] | [[e [A _]] | [L [_ C]]]]; try congruence.
    destruct C as [[A _] | [s [_ [[e [A _]] | [He [E [[e A] | [_ [check_df Hc]]]]]]]]];
      try congruence.
    exists s, check_df. auto.
Qed.

Lemma merge_failure_propagates_witness :
  let boom := ExaError (lit "connection lost") in
  let run c :=
    merge_tmp_into_target_tbl c (lit "BRAND, CATEGORY") (lit "STAGE") (lit "T")
      None None (fresh brands) in
  (fst (run (failing_at 0 boom)) = Raise boom /\ length (calls (snd (run (failing_at 0 boom)))) = 1%nat)
  /\ (fst (run (failing_at 1 boom)) = Raise boom /\ length (calls (snd (run (failing_at 1 boom)))) = 2%nat)
  /\ (fst (run (failing_at 2 boom)) = Raise boom /\ length (calls (snd (run (failing_at 2 boom)))) = 3%nat)
  /\ (fst (run (failing_at 3 boom)) = Raise boom /\ length (calls (snd (run (failing_at 3 boom)))) = 4%nat).
Proof.
  intros boom run. subst run. cbv beta.
  split; [|split; [|split]].
  - destruct (merge_failure_propagates (failing_at 0 boom) brands (lit "BRAND, CATEGORY")
                (lit "STAGE") (lit "T") None None) as [A _].
    destruct (A boom) as [R C]; [reflexivity|]. rewrite R, C. split; reflexivity.
  - destruct (merge_failure_propagates (failing_at 1 boom) brands (lit "BRAND, CATEGORY")
                (lit "STAGE") (lit "T") None None) as [_ [A _]].
    destruct (A boom) as [R C]; [reflexivity | reflexivity |].
    rewrite R, C. split; reflexivity.
  - destruct (merge_failure_propagates (failing_at 2 boom) brands (lit "BRAND, CATEGORY")
                (lit "STAGE") (lit "T") None None) as [_ [_ [A _]]].
    edestruct (A) as [R C];
      [split; reflexivity | vm_compute; reflexivity | reflexivity |].
    rewrite R, C. split; reflexivity.
  - destruct (merge_failure_propagates (failing_at 3 boom) brands (lit "BRAND, CATEGORY")
                (lit "STAGE") (lit "T") None None) as [_ [_ [_ [A _]]]].
    edestruct (A) as [R C];
      [split; reflexivity | vm_compute; reflexivity | reflexivity | reflexivity |].
    rewrite R, C. split; reflexivity.
Defined.

(** ** The statement and its twin *)

(** C6 (as amended). When the staging table read by [print_merge_query] has
    the trimmed labels of the dataframe given to [merge_tmp_into_target_tbl],
    the same names in the same order, and the other arguments are the same,
    the text printed is the text executed: a statement is printed exactly
    when it is the third request of the merge run.  [print_merge_query] sends the select of the staging table and
    nothing else: no truncate, no bulk load, no merge, no count. *)
Theorem print_shows_what_merge_executes (conn : connection) (df : DataFrame)
    (environ : str -> option str)
    (pyexasol_connect : option str -> option str -> option str -> exn + connection)
    (source : connection) (fetched : DataFrame)
    (pk schema tbl : str) (temp_schema temp_tbl : option str) :
  let sch := staging_schema schema temp_schema in
  let tab := staging_table tbl temp_tbl in
  let merged :=
    merge_tmp_into_target_tbl conn pk schema tbl temp_schema temp_tbl (fresh df) in
  let printed :=
    print_merge_query environ pyexasol_connect pk schema tbl temp_schema temp_tbl
      (fresh tt) in
  map strip (columns fetched) = map strip (columns df) ->
  loads conn df sch tab ->
  pyexasol_connect (environ (lit "DWHEXA_USER")) (environ (lit "DWHEXA_PASSWORD"))
    (environ (lit "DWHEXA_HOST")) = inr source ->
  on_export source [] (lit "SELECT * FROM " ++ sch ++ lit "." ++ tab) = inr fetched ->
  calls (snd printed) = [select_call sch tab]
  /\ (forall s, stdout (snd printed) = [s]
                <-> nth_error (calls (snd merged)) 2 = Some (Execute s))
  /\ (fst printed = Ok tt -> exists s, stdout (snd printed) = [s])
  /\ (stdout (snd printed) = [] ->
      calls (snd merged) = [truncate_call sch tab; ImportFromPandas df sch tab]).
Proof.
  intros sch tab merged printed Hcols Hload Hconn Hsel. subst sch tab merged printed.
  destruct (print_selected environ pyexasol_connect pk schema tbl temp_schema temp_tbl
              source fetched Hconn Hsel) as [R [C O]].
  cbv zeta in R, O.
  rewrite (merge_statement_labels pk pk schema tbl temp_schema temp_tbl
             (columns df) (columns fetched) eq_refl Hcols) in R, O.
  pose proof (merge_third_call conn df pk schema tbl temp_schema temp_tbl Hload) as T.
  split; [exact C|]. rewrite O, T.
  destruct (merge_run_cases conn df pk schema tbl temp_schema temp_tbl)
    as [[e [_ [_ [_ E]]]] | [[e [_ [_ [_ E]]]] | [_ [_ K]]]];
    [destruct Hload; congruence | destruct Hload; congruence |].
  destruct (merge_statement pk schema tbl temp_schema temp_tbl (columns df))
    as [s0| |] eqn:Hs.
  - repeat split.
    + intros E. congruence.
    + intros E. congruence.
    + intros _. now exists s0.
    + discriminate.
  - repeat split; try discriminate.
    + rewrite R. discriminate.
    + intros _. destruct K as [[_ [E _]] | [s [E _]]]; [exact E | discriminate E].
  - repeat split; try discriminate.
    + rewrite R. discriminate.
    + intros _. destruct K as [[_ [E _]] | [s [E _]]]; [exact E | discriminate E].
Qed.

Lemma print_shows_what_merge_executes_witness :
  exists s,
    stdout (snd (print_merge_query no_environ (connect_to staging)
                   (lit "BRAND, CATEGORY") (lit "STAGE") (lit "T") None None
                   (fresh tt))) = [s]
    /\ nth_error (calls (snd (merge_tmp_into_target_tbl friendly
                                (lit "BRAND, CATEGORY") (lit "STAGE") (lit "T")
                                None None (fresh brands)))) 2
       = Some (Execute s).
Proof.
  destruct (print_shows_what_merge_executes friendly brands no_environ
              (connect_to staging) staging brands (lit "BRAND, CATEGORY")
              (lit "STAGE") (lit "T") None None) as [_ [A [B _]]];
    [reflexivity | split; reflexivity | reflexivity | reflexivity |].
  destruct B as [s Hs]; [reflexivity|].
  exists s. split; [exact Hs | now apply A].
Defined.

(** C6, as stated, fails: the same set of trimmed names is not enough.  The
    frame merged has the labels [K, A, B] and the staging table read by
    [print_merge_query] has them as [K, B, A]; the statement printed lists the
    columns in the other order and is not the statement executed. *)
Lemma print_differs_on_reordered_columns :
  let merged :=
    merge_tmp_into_target_tbl friendly (lit "K") (lit "STAGE") (lit "T") None None
      (fresh ordered) in
  let printed :=
    print_merge_query no_environ (connect_to (holding shuffled)) (lit "K")
      (lit "STAGE") (lit "T") None None (fresh tt) in
  (forall c, In c (map strip (columns shuffled)) <-> In c (map strip (columns ordered)))
  /\ nth_error (calls (snd merged)) 2
     = Some (Execute (merge_text (lit "STAGE") (lit "T") (lit "STAGE_TMP") (lit "T")
                        [lit "K"] [lit "A"; lit "B"]))
  /\ stdout (snd printed)
     = [merge_text (lit "STAGE") (lit "T") (lit "STAGE_TMP") (lit "T")
          [lit "K"] [lit "B"; lit "A"]]
  /\ merge_text (lit "STAGE") (lit "T") (lit "STAGE_TMP") (lit "T")
       [lit "K"] [lit "B"; lit "A"]
     <> merge_text (lit "STAGE") (lit "T") (lit "STAGE_TMP") (lit "T")
          [lit "K"] [lit "A"; lit "B"].
Proof.
  split; [|split; [|split]].
  - intros c. cbn. tauto.
  - vm_compute. reflexivity.
  - vm_compute. reflexivity.
  - vm_compute. discriminate.
Qed.

(** ** Whitespace *)



(** ** Names in the clauses *)

Lemma app_same_length_l {A} (a a' b b' : list A) :
  length a = length a' -> a ++ b = a' ++ b' -> a = a'.
Proof.
  revert a'. induction a as [|x a IH]; intros [|y a'] L E; try discriminate.
  - reflexivity.
  - simpl in *. injection E as -> E. f_equal. apply (IH a'); [lia | exact E].
Qed.

Lemma on_conjunct_injective (c c' : str) : on_conjunct c = on_conjunct c' -> c = c'.
Proof.
  unfold on_conjunct. intros E. apply app_inv_head in E.
  assert (L : length c = length c').
  { apply (f_equal (@length N)) in E. rewrite !length_app in E. lia. }
  exact (app_same_length_l _ _ _ _ L E).
Qed.

Lemma NoDup_on_conjunct (pks : list str) : NoDup pks -> NoDup (map on_conjunct pks).
Proof.
  induction 1 as [|p pks Hp _ IH]; simpl; constructor; [|exact IH].
  intros Hin. apply in_map_iff in Hin as [q [E Hq]].
  apply on_conjunct_injective in E. now subst.
Qed.

Lemma NoDup_same_name (pks : list str) : NoDup pks -> NoDup (map same_name pks).
Proof.
  induction 1 as [|p pks Hp _ IH]; simpl; constructor; [|exact IH].
  intros Hin. apply in_map_iff in Hin as [q [E Hq]].
  injection E as ->. contradiction.
Qed.

Lemma occurs_app (needle a b : str) : occurs needle (a ++ needle ++ b) = true.
Proof.
  assert (P : forall n r, prefix_of n (n ++ r) = true).
  { induction n as [|x n IH]; intros r; simpl; [reflexivity|].
    now rewrite N.eqb_refl, IH. }
  induction a as [|x a IH].
  - cbn [app]. destruct (needle ++ b) eqn:E; cbn [occurs]; rewrite <- E, P; reflexivity.
  - cbn [app occurs]. rewrite IH. apply orb_true_r.
Qed.

Lemma cols_to_merge_filter (pks labels : list str) :
  cols_to_merge pks labels
  = filter (fun c => negb (py_in c pks) && negb (str_eqb c INSERT_TIMESTAMP)
                     && negb (str_eqb c UPDATE_TIMESTAMP))
           (map strip labels).
Proof.
  unfold cols_to_merge. apply filter_ext. intros c. unfold py_in.
  rewrite existsb_app. cbn [existsb]. rewrite orb_false_r, !negb_orb.
  now rewrite andb_assoc.
Qed.

Lemma cols_to_merge_In (pks labels : list str) (c : str) :
  In c (cols_to_merge pks labels)
  <-> In c (map strip labels) /\ ~ In c pks
      /\ c <> INSERT_TIMESTAMP /\ c <> UPDATE_TIMESTAMP.
Proof.
  rewrite cols_to_merge_filter, filter_In, !andb_true_iff, !negb_true_iff.
  rewrite py_in_not_In, !str_eqb_neq. tauto.
Qed.

Lemma empty_names (l : list str) :
  Forall (fun c => c = []) l -> l = repeat [] (length l).
Proof.
  induction 1 as [|x l Hx _ IH]; simpl; [reflexivity|]. now rewrite Hx, <- IH.
Qed.

(** ** The ON clause *)

(** C1 (as amended). For a primary-key string whose trimmed names hold no
    brace and no double quote, and labels that hold no brace, the statement
    executed by [merge_tmp_into_target_tbl] and the one printed by
    [print_merge_query] carry the clause [ON (c1 AND ... AND ck)] with one
    conjunct [target_tbl."col" = tmp."col"] per name of the string, in its
    order: read back, the clause gives exactly these k comparisons, each
    name on both sides.  k is one more than the number of commas, and distinct
    names give distinct conjuncts. *)
Theorem on_clause_lists_primary_key (conn : connection) (df : DataFrame)
    (environ : str -> option str)
    (pyexasol_connect : option str -> option str -> option str -> exn + connection)
    (source : connection) (fetched : DataFrame)
    (pk schema tbl : str) (temp_schema temp_tbl : option str) :
  let sch := staging_schema schema temp_schema in
  let tab := staging_table tbl temp_tbl in
  let merged :=
    merge_tmp_into_target_tbl conn pk schema tbl temp_schema temp_tbl (fresh df) in
  let printed :=
    print_merge_query environ pyexasol_connect pk schema tbl temp_schema temp_tbl
      (fresh tt) in
  let pks := pk_list pk in
  let clause := lit "ON (" ++ join (lit " AND ") (map on_conjunct pks) ++ lit ")" in
  let statement cols :=
    merge_head schema tbl sch tab
    ++ clause
    ++ lit " " ++ update_clause cols ++ lit " " ++ insert_clause pks cols ++ lit ";" in
  Forall (fun c => plain c = true) pks ->
  Forall (fun c => quote_free c = true) pks ->
  length pks = S (count_occ N.eq_dec pk comma)
  /\ read_on_clause clause = Some (map same_name pks, lit ")")
  /\ (NoDup pks -> NoDup (map same_name pks) /\ NoDup (map on_conjunct pks))
  /\ (Forall (fun c => plain c = true) (map strip (columns df)) ->
      loads conn df sch tab ->
      nth_error (calls (snd merged)) 2
      = Some (Execute (statement (cols_to_merge pks (columns df)))))
  /\ (Forall (fun c => plain c = true) (map strip (columns fetched)) ->
      pyexasol_connect (environ (lit "DWHEXA_USER")) (environ (lit "DWHEXA_PASSWORD"))
        (environ (lit "DWHEXA_HOST")) = inr source ->
      on_export source [] (lit "SELECT * FROM " ++ sch ++ lit "." ++ tab) = inr fetched ->
      stdout (snd printed) = [statement (cols_to_merge pks (columns fetched))]).
Proof.
  intros sch tab merged printed pks clause statement Hp Hq.
  subst sch tab merged printed pks clause statement. cbv beta.
  split; [|split; [|split; [|split]]].
  - unfold pk_list. now rewrite !length_map, split_length.
  - exact (read_on_clause_names (pk_list pk) (pk_list_not_nil pk) Hq).
  - intros D. split; [|now apply NoDup_on_conjunct].
    now apply NoDup_same_name.
  - intros Hl L. rewrite merge_third_call by assumption.
    now rewrite (merge_statement_text pk schema tbl temp_schema temp_tbl (columns df) Hp Hl).
  - intros Hl Hc He.
    destruct (print_selected environ pyexasol_connect pk schema tbl temp_schema temp_tbl
                source fetched Hc He) as [_ [_ O]].
    cbv zeta in O. rewrite O.
    now rewrite (merge_statement_text pk schema tbl temp_schema temp_tbl
                   (columns fetched) Hp Hl).
Qed.

Lemma on_clause_lists_primary_key_witness :
  read_on_clause
    (lit "ON (" ++ join (lit " AND ") [on_conjunct (lit "BRAND"); on_conjunct (lit "CATEGORY")]
     ++ lit ")")
  = Some ([(lit "BRAND", lit "BRAND"); (lit "CATEGORY", lit "CATEGORY")], lit ")")
  /\ nth_error (calls (snd (merge_tmp_into_target_tbl friendly (lit "BRAND, CATEGORY")
                              (lit "STAGE") (lit "T") None None (fresh brands)))) 2
     = Some (Execute
               (merge_head (lit "STAGE") (lit "T") (lit "STAGE_TMP") (lit "T")
                ++ (lit "ON ("
                    ++ join (lit " AND ")
                         [on_conjunct (lit "BRAND"); on_conjunct (lit "CATEGORY")]
                    ++ lit ")")
                ++ lit " " ++ update_clause [lit "PRICE"] ++ lit " "
                ++ insert_clause [lit "BRAND"; lit "CATEGORY"] [lit "PRICE"] ++ lit ";"))
  /\ stdout (snd (print_merge_query no_environ (connect_to staging)
                    (lit "BRAND, CATEGORY") (lit "STAGE") (lit "T") None None
                    (fresh tt)))
     = [merge_text (lit "STAGE") (lit "T") (lit "STAGE_TMP") (lit "T")
          [lit "BRAND"; lit "CATEGORY"] [lit "PRICE"]].
Proof.
  destruct (on_clause_lists_primary_key friendly brands no_environ (connect_to staging)
              staging brands (lit "BRAND, CATEGORY") (lit "STAGE") (lit "T") None None)
    as [_ [R [_ [A B]]]].
  - vm_compute. repeat constructor.
  - vm_compute. repeat constructor.
  - split; [exact R|]. split.
    + apply A; [vm_compute; repeat constructor | split; reflexivity].
    + apply B; [vm_compute; repeat constructor | reflexivity | reflexivity].
Defined.

(** C1, as stated, fails on a name with braces and on a name with a double
    quote.  For the key [{tbl}] the ON clause executed compares the column
    named after the table, not the key column.  The key [odd_key] is one
    name, and the ON clause executed for it reads as three comparisons, of the
    columns [A], [B] and [C]: none of them is the key column. *)
Lemma on_clause_of_braced_or_quoted_key :
  let run :=
    merge_tmp_into_target_tbl friendly (lit "{tbl}") (lit "STAGE") (lit "T")
      None None (fresh brands) in
  let quoted_run :=
    merge_tmp_into_target_tbl friendly odd_key (lit "STAGE") (lit "T")
      None None (fresh brands) in
  (pk_list (lit "{tbl}") = [lit "{tbl}"]
   /\ exists s,
        nth_error (calls (snd run)) 2 = Some (Execute s)
        /\ occurs (on_clause [lit "T"]) s = true
        /\ (forall a b, s <> a ++ on_conjunct (lit "{tbl}") ++ b)
        /\ s <> merge_text (lit "STAGE") (lit "T") (lit "STAGE_TMP") (lit "T")
                  (pk_list (lit "{tbl}"))
                  (cols_to_merge (pk_list (lit "{tbl}")) (columns brands)))
  /\ (pk_list odd_key = [odd_key]
      /\ plain odd_key = true
      /\ nth_error (calls (snd quoted_run)) 2
         = Some (Execute (merge_text (lit "STAGE") (lit "T") (lit "STAGE_TMP") (lit "T")
                            [odd_key] (cols_to_merge [odd_key] (columns brands))))
      /\ exists unread,
           read_on_clause (on_clause [odd_key])
           = Some ([(lit "A", lit "A"); (lit "B", lit "B"); (lit "C", lit "A")], unread)).
Proof.
  split.
  - split; [reflexivity|]. eexists. split; [vm_compute; reflexivity|].
    split; [vm_compute; reflexivity|]. split.
    + intros a b E. pose proof (occurs_app (on_conjunct (lit "{tbl}")) a b) as O.
      rewrite <- E in O. vm_compute in O. discriminate O.
    + vm_compute. discriminate.
  - split; [reflexivity|]. split; [reflexivity|]. split; [vm_compute; reflexivity|].
    eexists. vm_compute. reflexivity.
Qed.

(** ** The empty key *)

(** C2 (as amended). A primary-key string whose elements are all empty after
    trimming is not rejected: its list of names is one empty name per element,
    and once the truncate and the bulk load have succeeded the call executes,
    for labels free of braces, the MERGE statement whose ON clause compares
    the empty name, [target_tbl."" = tmp.""], once per element. *)
Theorem empty_key_is_merged (conn : connection) (df : DataFrame)
    (pk schema tbl : str) (temp_schema temp_tbl : option str) :
  let sch := staging_schema schema temp_schema in
  let tab := staging_table tbl temp_tbl in
  let run :=
    merge_tmp_into_target_tbl conn pk schema tbl temp_schema temp_tbl (fresh df) in
  let k := S (count_occ N.eq_dec pk comma) in
  Forall (fun c => c = []) (pk_list pk) ->
  Forall (fun c => plain c = true) (map strip (columns df)) ->
  loads conn df sch tab ->
  pk_list pk = repeat [] k
  /\ on_clause (pk_list pk)
     = lit "ON (" ++ join (lit " AND ") (repeat (qlit "target_tbl.'' = tmp.''") k)
       ++ lit ")"
  /\ nth_error (calls (snd run)) 2
     = Some (Execute (merge_text schema tbl sch tab (pk_list pk)
                        (cols_to_merge (pk_list pk) (columns df)))).
Proof.
  intros sch tab run k He Hl L. subst sch tab run k.
  assert (E : pk_list pk = repeat [] (S (count_occ N.eq_dec pk comma))).
  { rewrite (empty_names _ He) at 1. f_equal.
    unfold pk_list. now rewrite length_map, split_length. }
  split; [exact E|]. split.
  - rewrite E. unfold on_clause. now rewrite map_repeat.
  - rewrite merge_third_call by assumption.
    rewrite (merge_statement_text pk schema tbl temp_schema temp_tbl (columns df));
      [reflexivity | | assumption].
    revert He. apply Forall_impl. now intros c ->.
Qed.

Lemma empty_key_is_merged_witness :
  nth_error (calls (snd (merge_tmp_into_target_tbl friendly (lit " , ") (lit "STAGE")
                           (lit "T") None None (fresh brands)))) 2
  = Some (Execute (merge_text (lit "STAGE") (lit "T") (lit "STAGE_TMP") (lit "T")
                     [[]; []] [lit "BRAND"; lit "CATEGORY"; lit "PRICE"])).
Proof.
  destruct (empty_key_is_merged friendly brands (lit " , ") (lit "STAGE") (lit "T")
              None None) as [_ [_ A]].
  - vm_compute. repeat constructor.
  - vm_compute. repeat constructor.
  - split; reflexivity.
  - exact A.
Defined.

(** C2, as stated, fails: with the empty string as key nothing is validated,
    the call returns normally and a MERGE statement with the ON clause
    [ON (target_tbl."" = tmp."")] has been executed. *)
Lemma empty_key_executes_merge :
  let run :=
    merge_tmp_into_target_tbl friendly [] (lit "STAGE") (lit "T") None None
      (fresh brands) in
  fst run = Ok tt
  /\ exists rest,
       nth_error (calls (snd run)) 2
       = Some (Execute (lit "MERGE INTO STAGE.T target_tbl USING STAGE_TMP.T tmp "
                        ++ qlit "ON (target_tbl.'' = tmp.'')" ++ rest)).
Proof.
  split; [reflexivity|]. eexists. vm_compute. reflexivity.
Qed.

(** ** The update clause *)

(** C3 (as amended). For names free of braces and of double quotes, and a
    key that does not name [UPDATE_TIMESTAMP], the update clause of the
    executed statement assigns [UPDATE_TIMESTAMP] first and exactly once, then
    every trimmed label that is neither a primary-key name nor one of the two
    reserved names, in the dataframe's order: read back, the clause gives
    exactly these assignments, each column from the staging column of its
    name.  It assigns neither [INSERT_TIMESTAMP] nor a primary-key name. *)
Theorem update_clause_assignments (conn : connection) (df : DataFrame)
    (pk schema tbl : str) (temp_schema temp_tbl : option str) :
  let sch := staging_schema schema temp_schema in
  let tab := staging_table tbl temp_tbl in
  let run :=
    merge_tmp_into_target_tbl conn pk schema tbl temp_schema temp_tbl (fresh df) in
  let pks := pk_list pk in
  let cols := cols_to_merge pks (columns df) in
  let assigned := UPDATE_TIMESTAMP :: cols in
  let clause :=
    lit "WHEN MATCHED THEN UPDATE SET " ++ join (lit ", ") (map assignment assigned) in
  Forall (fun c => plain c = true) pks ->
  Forall (fun c => plain c = true) (map strip (columns df)) ->
  Forall (fun c => quote_free c = true) pks ->
  Forall (fun c => quote_free c = true) (map strip (columns df)) ->
  ~ In UPDATE_TIMESTAMP pks ->
  loads conn df sch tab ->
  nth_error (calls (snd run)) 2
  = Some (Execute
            (merge_head schema tbl sch tab ++ on_clause pks ++ lit " "
             ++ clause ++ lit " " ++ insert_clause pks cols ++ lit ";"))
  /\ read_update_clause clause = Some (map same_name assigned, [])
  /\ count_occ str_eq_dec assigned UPDATE_TIMESTAMP = 1%nat
  /\ ~ In INSERT_TIMESTAMP assigned
  /\ (forall p, In p pks -> ~ In p assigned)
  /\ cols = filter (fun c => negb (py_in c pks) && negb (str_eqb c INSERT_TIMESTAMP)
                             && negb (str_eqb c UPDATE_TIMESTAMP))
                   (map strip (columns df)).
Proof.
  intros sch tab run pks cols assigned clause Hp Hl Qp Ql Hu L.
  subst sch tab run pks cols assigned clause.
  split; [|split; [|split; [|split; [|split]]]].
  - rewrite merge_third_call by assumption.
    now rewrite (merge_statement_text pk schema tbl temp_schema temp_tbl (columns df) Hp Hl).
  - apply (read_update_clause_names (cols_to_merge (pk_list pk) (columns df))).
    apply Forall_forall. intros c Hc. apply cols_to_merge_In in Hc as [Hc _].
    revert c Hc. now apply Forall_forall.
  - cbn [count_occ]. destruct (str_eq_dec UPDATE_TIMESTAMP UPDATE_TIMESTAMP); [|congruence].
    f_equal. apply count_occ_not_In. intros H. apply cols_to_merge_In in H. tauto.
  - intros [H|H]; [discriminate H|]. apply cols_to_merge_In in H. tauto.
  - intros p Hin [H|H]; [congruence|]. apply cols_to_merge_In in H. tauto.
  - apply cols_to_merge_filter.
Qed.

Lemma update_clause_assignments_witness :
  nth_error (calls (snd (merge_tmp_into_target_tbl friendly (lit "BRAND, CATEGORY")
                           (lit "STAGE") (lit "T") None None (fresh brands)))) 2
  = Some (Execute
            (merge_head (lit "STAGE") (lit "T") (lit "STAGE_TMP") (lit "T")
             ++ on_clause [lit "BRAND"; lit "CATEGORY"] ++ lit " "
             ++ (lit "WHEN MATCHED THEN UPDATE SET "
                 ++ join (lit ", ") [assignment UPDATE_TIMESTAMP; assignment (lit "PRICE")])
             ++ lit " " ++ insert_clause [lit "BRAND"; lit "CATEGORY"] [lit "PRICE"]
             ++ lit ";"))
  /\ read_update_clause
       (lit "WHEN MATCHED THEN UPDATE SET "
        ++ join (lit ", ") [assignment UPDATE_TIMESTAMP; assignment (lit "PRICE")])
     = Some ([(UPDATE_TIMESTAMP, UPDATE_TIMESTAMP); (lit "PRICE", lit "PRICE")], []).
Proof.
  destruct (update_clause_assignments friendly brands (lit "BRAND, CATEGORY")
              (lit "STAGE") (lit "T") None None) as [A [B _]].
  - vm_compute. repeat constructor.
  - vm_compute. repeat constructor.
  - vm_compute. repeat constructor.
  - vm_compute. repeat constructor.
  - intros [E|[E|[]]]; discriminate E.
  - split; reflexivity.
  - split; [exact A | exact B].
Defined.

(** C3, as stated, fails on a label with a double quote and on a label with
    a brace.  The frame [odd_frame] has the key column [K] and one more label,
    free of braces; the update clause executed for it reads as assignments of
    [UPDATE_TIMESTAMP], [X], [INSERT_TIMESTAMP], the key column [K],
    [UPDATE_TIMESTAMP] a second time and [Y].  A label with a lone brace makes
    [format] raise, so that no statement reaches the database.  And a key
    string that names [UPDATE_TIMESTAMP] has that key column assigned, which
    the amended claim leaves aside. *)
Lemma update_clause_assigns_excluded_columns :
  let quoted_run :=
    merge_tmp_into_target_tbl friendly (lit "K") (lit "STAGE") (lit "T")
      None None (fresh odd_frame) in
  let braced :=
    merge_tmp_into_target_tbl friendly (lit "BRAND") (lit "STAGE") (lit "T")
      None None (fresh {| columns := [lit "BRAND"; lit "PRICE}"]; rows := [] |}) in
  let keyed :=
    merge_tmp_into_target_tbl friendly (lit "UPDATE_TIMESTAMP") (lit "STAGE") (lit "T")
      None None (fresh brands) in
  (plain odd_label = true
   /\ cols_to_merge (pk_list (lit "K")) (columns odd_frame) = [odd_label]
   /\ nth_error (calls (snd quoted_run)) 2
      = Some (Execute (merge_text (lit "STAGE") (lit "T") (lit "STAGE_TMP") (lit "T")
                         [lit "K"] [odd_label]))
   /\ exists unread,
        read_update_clause (update_clause [odd_label])
        = Some ([(UPDATE_TIMESTAMP, UPDATE_TIMESTAMP); (lit "X", lit "X");
                 (INSERT_TIMESTAMP, INSERT_TIMESTAMP); (lit "K", lit "K");
                 (UPDATE_TIMESTAMP, UPDATE_TIMESTAMP); (lit "Y", lit "X")], unread))
  /\ (fst braced = Raise FormatError
      /\ calls (snd braced)
         = [truncate_call (lit "STAGE_TMP") (lit "T");
            ImportFromPandas {| columns := [lit "BRAND"; lit "PRICE}"]; rows := [] |}
              (lit "STAGE_TMP") (lit "T")])
  /\ (In UPDATE_TIMESTAMP (pk_list (lit "UPDATE_TIMESTAMP"))
      /\ exists before rest,
           nth_error (calls (snd keyed)) 2
           = Some (Execute (before ++ lit "WHEN MATCHED THEN UPDATE SET "
                            ++ assignment UPDATE_TIMESTAMP ++ rest))).
Proof.
  split; [|split].
  - split; [reflexivity|]. split; [reflexivity|]. split; [vm_compute; reflexivity|].
    eexists. vm_compute. reflexivity.
  - split; reflexivity.
  - split; [left; reflexivity|].
    exists (merge_head (lit "STAGE") (lit "T") (lit "STAGE_TMP") (lit "T")
            ++ on_clause [UPDATE_TIMESTAMP] ++ lit " ").
    eexists. vm_compute. reflexivity.
Qed.

(** ** The insert clause *)

(** C4 (as amended). For names free of braces and of double quotes the insert
    clause of the executed statement lists [INSERT_TIMESTAMP],
    [UPDATE_TIMESTAMP], the primary-key names in the order of the string and
    the merged labels in the dataframe's order, each quoted, and its VALUES
    list is the same names in the same order, each as [tmp."name"]; reading
    either list back gives that list of names. *)
Theorem insert_clause_round_trip (conn : connection) (df : DataFrame)
    (pk schema tbl : str) (temp_schema temp_tbl : option str) :
  let sch := staging_schema schema temp_schema in
  let tab := staging_table tbl temp_tbl in
  let run :=
    merge_tmp_into_target_tbl conn pk schema tbl temp_schema temp_tbl (fresh df) in
  let pks := pk_list pk in
  let cols := cols_to_merge pks (columns df) in
  let names := INSERT_TIMESTAMP :: UPDATE_TIMESTAMP :: pks ++ cols in
  Forall (fun c => plain c = true) pks ->
  Forall (fun c => plain c = true) (map strip (columns df)) ->
  Forall (fun c => quote_free c = true) pks ->
  Forall (fun c => quote_free c = true) (map strip (columns df)) ->
  loads conn df sch tab ->
  nth_error (calls (snd run)) 2
  = Some (Execute
            (merge_head schema tbl sch tab ++ on_clause pks ++ lit " "
             ++ update_clause cols ++ lit " "
             ++ (lit "WHEN NOT MATCHED THEN INSERT ("
                 ++ join (lit ", ") (map quoted names)
                 ++ lit ") VALUES ("
                 ++ join (lit ", ") (map staged names) ++ lit ")")
             ++ lit ";"))
  /\ read_column_list [] (join (lit ", ") (map quoted names)) = Some names
  /\ read_column_list (lit "tmp.") (join (lit ", ") (map staged names)) = Some names.
Proof.
  intros sch tab run pks cols names Hp Hl Qp Ql L.
  subst sch tab run pks cols names.
  assert (Q : Forall (fun c => quote_free c = true)
                (INSERT_TIMESTAMP :: UPDATE_TIMESTAMP
                 :: pk_list pk ++ cols_to_merge (pk_list pk) (columns df))).
  { repeat apply Forall_cons; try reflexivity. apply Forall_app. split; [assumption|].
    apply Forall_forall. intros c Hc. apply cols_to_merge_In in Hc as [Hc _].
    revert c Hc. now apply Forall_forall. }
  split; [|split].
  - rewrite merge_third_call by assumption.
    now rewrite (merge_statement_text pk schema tbl temp_schema temp_tbl (columns df) Hp Hl).
  - exact (read_column_list_join [] _ Q).
  - exact (read_column_list_join (lit "tmp.") _ Q).
Qed.

Lemma insert_clause_round_trip_witness :
  read_column_list []
    (join (lit ", ")
       (map quoted [INSERT_TIMESTAMP; UPDATE_TIMESTAMP; lit "BRAND"; lit "CATEGORY";
                    lit "PRICE"]))
  = Some [INSERT_TIMESTAMP; UPDATE_TIMESTAMP; lit "BRAND"; lit "CATEGORY"; lit "PRICE"].
Proof.
  destruct (insert_clause_round_trip friendly brands (lit "BRAND, CATEGORY")
              (lit "STAGE") (lit "T") None None) as [_ [A _]].
  - vm_compute. repeat constructor.
  - vm_compute. repeat constructor.
  - vm_compute. repeat constructor.
  - vm_compute. repeat constructor.
  - split; reflexivity.
  - exact A.
Defined.

(** C4, as stated, fails on a label with a double quote: the frame with the
    one label [a", "b] and the frame with the two labels [a] and [b] give the
    same insert column list, so no reading of it recovers both column lists;
    read by the quoting rules, the list executed for the first frame names
    the columns of the second, and its VALUES list is not a list of
    [tmp."name"] items at all.  And a key with a lone brace makes [format]
    raise, so that no insert clause is produced. *)
Lemma insert_column_list_ambiguous :
  let run :=
    merge_tmp_into_target_tbl friendly (lit "K") (lit "STAGE") (lit "T") None None
      (fresh one_odd_column) in
  let pks := pk_list (lit "K") in
  let odd := cols_to_merge pks (columns one_odd_column) in
  let two := cols_to_merge pks (columns two_columns) in
  (exists before,
     nth_error (calls (snd run)) 2
     = Some (Execute (before ++ lit "INSERT (" ++ insert_column_list pks odd
                      ++ lit ") VALUES (" ++ insert_value_list pks odd ++ lit ");")))
  /\ inserted_columns pks odd <> inserted_columns pks two
  /\ insert_column_list pks odd = insert_column_list pks two
  /\ (forall read : str -> option (list str),
        read (insert_column_list pks odd) = Some (inserted_columns pks odd) ->
        read (insert_column_list pks two) <> Some (inserted_columns pks two))
  /\ read_column_list [] (insert_column_list pks odd) = Some (inserted_columns pks two)
  /\ read_column_list (lit "tmp.") (insert_value_list pks odd) = None
  /\ fst (merge_tmp_into_target_tbl friendly (lit "K}") (lit "STAGE") (lit "T") None None
            (fresh two_columns)) = Raise FormatError.
Proof.
  intros run pks odd two. subst run pks odd two.
  split; [|split; [|split; [|split; [|split; [|split]]]]].
  - exists (merge_head (lit "STAGE") (lit "T") (lit "STAGE_TMP") (lit "T")
            ++ on_clause [lit "K"] ++ lit " " ++ update_clause [qlit "a', 'b"]
            ++ lit " WHEN NOT MATCHED THEN ").
    vm_compute. reflexivity.
  - vm_compute. discriminate.
  - vm_compute. reflexivity.
  - intros read E.
    replace (insert_column_list (pk_list (lit "K"))
               (cols_to_merge (pk_list (lit "K")) (columns two_columns)))
      with (insert_column_list (pk_list (lit "K"))
              (cols_to_merge (pk_list (lit "K")) (columns one_odd_column)))
      by (vm_compute; reflexivity).
    rewrite E. vm_compute. discriminate.
  - vm_compute. reflexivity.
  - vm_compute. reflexivity.
  - reflexivity.
Qed.

(** * The helper functions *)

(** ** [parse_timestamp] *)

(** X1. For a string that starts with ten characters of date, then one
    separator, then the time and one last character, [parse_timestamp] gives
    the date, a space and the time: the separator and the last character are
    dropped whatever they are. *)
Theorem parse_timestamp_drops_two_characters (date time : str) (sep last : N) :
  length date = 10%nat ->
  parse_timestamp (Some (date ++ sep :: time ++ [last])) = Some (date ++ 32 :: time).
Proof.
  intros H. unfold parse_timestamp. f_equal.
  assert (E1 : firstn 10 (date ++ sep :: time ++ [last]) = date).
  { rewrite firstn_app, (firstn_all2 (n:=10) date) by lia.
    replace (10 - length date)%nat with 0%nat by lia. apply app_nil_r. }
  assert (E2 : drop_last 1 (date ++ sep :: time ++ [last]) = date ++ sep :: time).
  { change (date ++ sep :: time ++ [last]) with (date ++ (sep :: time) ++ [last]).
    rewrite app_assoc. exact (drop_last_app (date ++ sep :: time) [last]). }
  assert (E3 : skipn 11 (date ++ sep :: time) = time).
  { rewrite skipn_app, (skipn_all2 (n:=11) date) by lia.
    replace (11 - length date)%nat with 1%nat by lia. reflexivity. }
  now rewrite E1, E2, E3.
Qed.

Lemma parse_timestamp_drops_two_characters_witness :
  parse_timestamp (Some (lit "2019-12-12T15:22:04.558Z"))
  = Some (lit "2019-12-12 15:22:04.558").
Proof.
  exact (parse_timestamp_drops_two_characters (lit "2019-12-12") (lit "15:22:04.558")
           84 90 eq_refl).
Defined.

(** X2. [parse_timestamp] never fails on a string; one of at most twelve
    characters has no time part left and comes back as its first ten
    characters followed by a space. *)
Theorem parse_timestamp_short_input (x : str) :
  (length x <= 12)%nat ->
  parse_timestamp (Some x) = Some (firstn 10 x ++ lit " ").
Proof.
  intros H. unfold parse_timestamp, drop_last. f_equal. f_equal.
  rewrite skipn_all2; [now rewrite app_nil_r|].
  rewrite length_firstn. lia.
Qed.

Lemma parse_timestamp_short_input_witness :
  parse_timestamp (Some (lit "2019-12-12")) = Some (lit "2019-12-12 ").
Proof.
  apply (parse_timestamp_short_input (lit "2019-12-12")). vm_compute. lia.
Defined.

(** ** [extract_key] and [check_for_key] *)

Lemma split_free (sep : N) (s : str) : free_of sep s = true -> split sep s = [s].
Proof.
  induction s as [|c s IH]; [reflexivity|].
  simpl. intros H. apply andb_true_iff in H as [Hc Hs]. apply negb_true_iff in Hc.
  now rewrite Hc, (IH Hs).
Qed.

Lemma split_app (sep : N) (a b : str) :
  split sep (a ++ sep :: b) = split sep a ++ split sep b.
Proof.
  induction a as [|c a IH].
  - cbn [app split]. now rewrite N.eqb_refl.
  - cbn [app split]. rewrite IH. destruct (c =? sep); [reflexivity|].
    pose proof (split_not_nil sep a). destruct (split sep a); [congruence | reflexivity].
Qed.

Lemma reduce_app (f : value -> str -> answer value) (ks ks' : list str) (d : value) :
  reduce f (ks ++ ks') d = and_then (reduce f ks d) (reduce f ks').
Proof.
  revert d. induction ks as [|k ks IH]; intros d; [reflexivity|].
  cbn [app reduce]. destruct (f d k); cbn [and_then]; [apply IH | reflexivity | reflexivity].
Qed.

Lemma reduce_none (keys : list str) : reduce extract_step keys VNone = Return VNone.
Proof.
  induction keys as [|k keys IH]; [reflexivity | exact IH].
Qed.

Lemma int_scan_free (st : int_state) (s : str) (i : Z) :
  int_scan st s = Return i -> free_of 46 s = true.
Proof.
  revert st. induction s as [|c s IH]; intros st H; [reflexivity|].
  cbn [free_of forallb]. fold (free_of 46 s).
  cbn [int_scan] in H.
  destruct (N.eqb_spec c 46) as [->|Hc].
  - exfalso. cbn in H. destruct st; discriminate H.
  - cbn [negb andb].
    destruct (128 <=? c); [discriminate|].
    destruct st.
    + destruct (is_ascii_space c); [eauto|].
      destruct (c =? 43); [eauto|]. destruct (c =? 45); [eauto|].
      destruct (is_digit c); [eauto | discriminate].
    + destruct (is_digit c); [eauto | discriminate].
    + destruct (is_digit c).
      * destruct (Nat.leb 4000 count); [discriminate | eauto].
      * destruct (c =? 95); [eauto|]. destruct (is_ascii_space c); [eauto | discriminate].
    + destruct (is_digit c); [|discriminate].
      destruct (Nat.leb 4000 count); [discriminate | eauto].
    + destruct (is_ascii_space c); [eauto | discriminate].
Qed.

Lemma extract_key_path_app (d : value) (p q : str) :
  extract_key d (p ++ 46 :: q) = and_then (extract_key d p) (fun v => extract_key v q).
Proof.
  unfold extract_key. cbv zeta. now rewrite split_app, reduce_app.
Qed.

Lemma extract_key_one (d : value) (key : str) :
  free_of 46 key = true ->
  extract_key d key = extract_step d key.
Proof.
  intros H. unfold extract_key. cbv zeta. rewrite (split_free 46 key H).
  cbn [reduce]. now destruct (extract_step d key).
Qed.

Lemma extract_key_first (d : value) (path : str) :
  exists key keys,
    extract_key d path = and_then (extract_step d key) (reduce extract_step keys).
Proof.
  unfold extract_key. cbv zeta. pose proof (split_not_nil 46 path) as H.
  destruct (split 46 path) as [|key keys]; [congruence|]. now exists key, keys.
Qed.

(** X3. A dotted path is walked one part after the other: looking up [p.q]
    is looking up [p] and then [q] in what was found, and an exception of
    the first part is the exception of the whole. *)
Theorem extract_key_composes (d : value) (p q : str) :
  extract_key d (p ++ lit "." ++ q)
  = match extract_key d p with
    | Return v => extract_key v q
    | Throw e => Throw e
    | NotModelled => NotModelled
    end.
Proof.
  exact (extract_key_path_app d p q).
Qed.

(** X4. A key that a dict does not hold gives [None], and so does every
    path that goes on below it: nothing is raised. *)
Theorem extract_key_missing_key (items : list (str * value)) (key rest : str) :
  free_of 46 key = true ->
  dict_find items key = None ->
  extract_key (VDict items) key = Return VNone
  /\ extract_key (VDict items) (key ++ lit "." ++ rest) = Return VNone.
Proof.
  intros Hk Hf.
  assert (E : extract_key (VDict items) key = Return VNone).
  { rewrite (extract_key_one _ _ Hk). cbn [extract_step truthy].
    unfold dict_get. rewrite Hf. now destruct items. }
  split; [exact E|].
  change (key ++ lit "." ++ rest) with (key ++ 46 :: rest).
  rewrite extract_key_path_app, E. apply reduce_none.
Qed.

Lemma extract_key_missing_key_witness :
  extract_key order (lit "supplier.address.city") = Return VNone.
Proof.
  destruct (extract_key_missing_key
              [(lit "id", VInt 7);
               (lit "customer",
                VDict [(lit "name", VStr (lit "Ada"));
                       (lit "tags", VList [VStr (lit "new"); VStr (lit "vip")])]);
               (lit "note", VStr [])]
              (lit "supplier") (lit "address.city")) as [_ A];
    [reflexivity | reflexivity | exact A].
Defined.

(** X5. Below a leaf the outcome depends on its truth value alone: every
    path into [None], [False], [0] or the empty string gives [None], and every
    path into [True], a non-zero number or a non-empty string raises
    AttributeError. *)
Theorem extract_key_below_leaf (v : value) (path : str) :
  is_leaf v = true ->
  extract_key v path = if truthy v then Throw AttributeError else Return VNone.
Proof.
  intros L. destruct (extract_key_first v path) as [key [keys E]]. rewrite E.
  destruct v as [|b|z|s|l|items]; try discriminate L; cbn [extract_step].
  - apply reduce_none.
  - destruct (truthy (VBool b)); [reflexivity | apply reduce_none].
  - destruct (truthy (VInt z)); [reflexivity | apply reduce_none].
  - destruct (truthy (VStr s)); [reflexivity | apply reduce_none].
Qed.

Lemma extract_key_below_leaf_witness :
  extract_key (VStr (lit "Ada")) (lit "first") = Throw AttributeError
  /\ extract_key (VStr []) (lit "first") = Return VNone.
Proof.
  split.
  - exact (extract_key_below_leaf (VStr (lit "Ada")) (lit "first") eq_refl).
  - exact (extract_key_below_leaf (VStr []) (lit "first") eq_refl).
Defined.

(** X6. On a list the key is read as an integer: an index from [0] to
    [len - 1] selects that element, a negative one from [-len] to [-1] counts
    from the end, any other integer raises IndexError, and a key that is no
    integer raises ValueError, the empty list included. *)
Theorem extract_key_list_index (l : list value) (key : str) :
  (forall i, int_of_str key = Return i ->
     (0 <= i < Z.of_nat (length l))%Z ->
     extract_key (VList l) key = Return (nth (Z.to_nat i) l VNone))
  /\ (forall i, int_of_str key = Return i ->
        (- Z.of_nat (length l) <= i < 0)%Z ->
        extract_key (VList l) key
        = Return (nth (Z.to_nat (i + Z.of_nat (length l))) l VNone))
  /\ (forall i, int_of_str key = Return i ->
        (i < - Z.of_nat (length l) \/ Z.of_nat (length l) <= i)%Z ->
        extract_key (VList l) key = Throw IndexError)
  /\ (free_of 46 key = true -> int_of_str key = Throw ValueError ->
      extract_key (VList l) key = Throw ValueError).
Proof.
  assert (N : forall j, (0 <= j < Z.of_nat (length l))%Z ->
                        nth_error l (Z.to_nat j) = Some (nth (Z.to_nat j) l VNone)).
  { intros j Hj. apply nth_error_nth'. lia. }
  repeat split.
  - intros i Hi R. rewrite (extract_key_one _ _ (int_scan_free _ _ _ Hi)).
    cbn [extract_step]. rewrite Hi. cbn [and_then]. unfold list_item. cbv zeta.
    destruct (Z.ltb_spec i 0); [lia|].
    destruct (Z.ltb_spec i 0); [lia|]. destruct (Z.leb_spec (Z.of_nat (length l)) i); [lia|].
    cbn [orb]. now rewrite (N i R).
  - intros i Hi R. rewrite (extract_key_one _ _ (int_scan_free _ _ _ Hi)).
    cbn [extract_step]. rewrite Hi. cbn [and_then]. unfold list_item. cbv zeta.
    destruct (Z.ltb_spec i 0); [|lia].
    destruct (Z.ltb_spec (i + Z.of_nat (length l)) 0); [lia|].
    destruct (Z.leb_spec (Z.of_nat (length l)) (i + Z.of_nat (length l))); [lia|].
    cbn [orb]. rewrite N by lia. reflexivity.
  - intros i Hi R. rewrite (extract_key_one _ _ (int_scan_free _ _ _ Hi)).
    cbn [extract_step]. rewrite Hi. cbn [and_then]. unfold list_item. cbv zeta.
    destruct (Z.ltb_spec i 0).
    + destruct (Z.ltb_spec (i + Z.of_nat (length l)) 0); [reflexivity|].
      destruct (Z.leb_spec (Z.of_nat (length l)) (i + Z.of_nat (length l))); [reflexivity|].
      lia.
    + destruct (Z.ltb_spec i 0); [lia|].
      destruct (Z.leb_spec (Z.of_nat (length l)) i); [reflexivity | lia].
  - intros Hk Hi. rewrite (extract_key_one _ _ Hk). cbn [extract_step]. now rewrite Hi.
Qed.

Lemma extract_key_list_index_witness :
  let tags := [VStr (lit "new"); VStr (lit "vip")] in
  extract_key (VList tags) (lit "1") = Return (VStr (lit "vip"))
  /\ extract_key (VList tags) (lit "-2") = Return (VStr (lit "new"))
  /\ extract_key (VList tags) (lit "2") = Throw IndexError
  /\ extract_key (VList tags) (lit "last") = Throw ValueError.
Proof.
  intros tags. split; [|split; [|split]].
  - destruct (extract_key_list_index tags (lit "1")) as [A _].
    apply (A 1%Z); [reflexivity | vm_compute; split; [discriminate | reflexivity]].
  - destruct (extract_key_list_index tags (lit "-2")) as [_ [A _]].
    apply (A (-2)%Z); [reflexivity | vm_compute; split; [discriminate | reflexivity]].
  - destruct (extract_key_list_index tags (lit "2")) as [_ [_ [A _]]].
    apply (A 2%Z); [reflexivity | right; vm_compute; discriminate].
  - destruct (extract_key_list_index tags (lit "last")) as [_ [_ [_ A]]].
    apply A; reflexivity.
Defined.

(** X7. On a dict and a key without dot, [extract_key] and [check_for_key]
    agree when the key is there, both giving its value, and part when it is
    not: [None] from the one, the string ["empty"] from the other.  On
    anything but a dict [check_for_key] gives [None]. *)
Theorem check_for_key_and_extract_key (x : value) (key : str) :
  free_of 46 key = true ->
  match x with
  | VDict items =>
      match dict_find items key with
      | Some v => check_for_key x key = v /\ extract_key x key = Return v
      | None => check_for_key x key = VStr (lit "empty")
                /\ extract_key x key = Return VNone
      end
  | _ => check_for_key x key = VNone
  end.
Proof.
  intros Hk. destruct x as [|b|z|s|l|items]; try reflexivity.
  rewrite (extract_key_one _ _ Hk). cbn [check_for_key extract_step truthy].
  unfold dict_get. destruct (dict_find items key) as [v|] eqn:E.
  - split; [reflexivity|]. destruct items; [discriminate E | reflexivity].
  - split; [reflexivity|]. now destruct items.
Qed.

Lemma check_for_key_and_extract_key_witness :
  check_for_key order (lit "id") = VInt 7
  /\ extract_key order (lit "id") = Return (VInt 7).
Proof.
  exact (check_for_key_and_extract_key order (lit "id") eq_refl).
Defined.

(** * The remaining functions *)

(** ** [deployment], every case *)

(** X8. [deployment] either returns or exits.  It exits exactly when [env]
    is [None] and both flags are [False], or [env] is ['prod'] and [prod] is
    [False], or [env] is ['dev'] and [dev] is [False].  It sends nothing to a
    database and prints nothing; its call of [set_logging] registers the
    default logger unless the module holds it already, and for any other
    string as [env] that is all it does: no line is logged. *)
Theorem deployment_by_environment {H : Type} (env : option str) (prod dev : bool)
    (w : world H) :
  let run := deployment env prod dev w in
  (fst run = Raise SystemExit \/ fst run = Ok tt)
  /\ (fst run = Raise SystemExit
      <-> (env = None /\ prod = false /\ dev = false)
          \/ (env = Some (lit "prod") /\ prod = false)
          \/ (env = Some (lit "dev") /\ dev = false))
  /\ calls (snd run) = calls w /\ stdout (snd run) = stdout w /\ heap (snd run) = heap w
  /\ registry (snd run) = snd (set_logging (lit "logger") (registry w))
  /\ (forall lg, loggers_get (loggers (registry w)) (lit "logger") = Some lg ->
      registry (snd run) = registry w)
  /\ (forall e, env = Some e -> e <> lit "prod" -> e <> lit "dev" ->
      snd run = registered w).
Proof.
  intros run. subst run.
  assert (P : lit "prod" <> lit "dev") by discriminate.
  assert (G : forall lg, loggers_get (loggers (registry w)) (lit "logger") = Some lg ->
                         snd (set_logging (lit "logger") (registry w)) = registry w).
  { intros lg E. unfold set_logging. now rewrite E. }
  destruct env as [e|].
  - destruct (str_eq_dec e (lit "prod")) as [->|Np];
      [|destruct (str_eq_dec e (lit "dev")) as [->|Nd]].
    + destruct prod, dev; (split; [(left; reflexivity) || (right; reflexivity)|]);
        (split; [split; [intros R; try discriminate R; auto
                        | intros [[E _]|[[_ E]|[E _]]]; try discriminate E; try reflexivity;
                          injection E as E; vm_compute in E; discriminate E] |]);
        (repeat (split; [reflexivity|])); (split; [exact G|]);
        intros e E; injection E as <-; congruence.
    + destruct prod, dev; (split; [(left; reflexivity) || (right; reflexivity)|]);
        (split; [split; [intros R; try discriminate R; auto
                        | intros [[E _]|[[E _]|[_ E]]]; try discriminate E; try reflexivity;
                          injection E as E; vm_compute in E; discriminate E] |]);
        (repeat (split; [reflexivity|])); (split; [exact G|]);
        intros e E; injection E as <-; congruence.
    + assert (R : deployment (Some e) prod dev w = (Ok tt, registered w)).
      { unfold deployment, bind, get_logger, try_except, env_eq.
        rewrite (proj2 (str_eqb_neq e (lit "prod")) Np),
                (proj2 (str_eqb_neq e (lit "dev")) Nd).
        destruct prod, dev; reflexivity. }
      rewrite R. split; [right; reflexivity|].
      split; [split; [discriminate | intros [[E _]|[[E _]|[E _]]]; congruence]|].
      repeat (split; [reflexivity|]). split; [exact G|]. reflexivity.
  - destruct prod, dev; (split; [(left; reflexivity) || (right; reflexivity)|]);
      (split; [split; [intros R; try discriminate R; auto
                      | intros [[_ [E1 E2]]|[[E _]|[E _]]]; try discriminate; reflexivity] |]);
      (repeat (split; [reflexivity|])); (split; [exact G|]); intros e E; discriminate E.
Qed.

Lemma deployment_by_environment_witness :
  snd (deployment (Some (lit "staging")) true false (fresh tt)) = registered (fresh tt).
Proof.
  destruct (deployment_by_environment (Some (lit "staging")) true false (fresh tt))
    as [_ [_ [_ [_ [_ [_ [_ A]]]]]]].
  apply (A (lit "staging")); [reflexivity | discriminate | discriminate].
Defined.

(** ** The script runners *)

(** X9. [return_df_from_sql_script] raises the error of a script file that
    cannot be read, before any request: by then it has only called
    [set_logging].  On a readable script it sends one export with the
    script's text; the dataframe comes back on success, and an [Exception] of
    the connection is not raised but logged, the result being [None]. *)
Theorem return_df_from_sql_script_swallows_failure {H : Type}
    (read_file : str -> exn + str) (filename : str) (exa_conn : connection)
    (w : world H) :
  let run := return_df_from_sql_script read_file filename exa_conn w in
  (forall e, read_file filename = inl e -> run = (Raise e, registered w))
  /\ (forall query tbl,
        read_file filename = inr query ->
        on_export exa_conn (calls w) query = inr tbl ->
        run = (Ok (Some tbl), sent (ExportToPandas query) (registered w)))
  /\ (forall query e,
        read_file filename = inr query ->
        on_export exa_conn (calls w) query = inl e ->
        is_Exception e = true ->
        fst run = Ok None
        /\ calls (snd run) = calls w ++ [ExportToPandas query]
        /\ log (snd run)
           = log w ++ [lit "Couldn" ++ [apostrophe] ++ lit "t read the query. Error msg: "
                       ++ str_of_exn e]).
Proof.
  intros run. subst run.
  unfold return_df_from_sql_script, read_script, try_except, bind, get_logger, lift,
    ret, export_to_pandas, log_info.
  split; [|split].
  - intros e E. now rewrite E.
  - intros query tbl E1 E2. rewrite E1. cbn [registered calls]. now rewrite E2.
  - intros query e E1 E2 E3. rewrite E1. cbn [registered calls]. rewrite E2, E3.
    cbn [fst snd calls log sent]. auto.
Qed.

Lemma return_df_from_sql_script_swallows_failure_witness :
  fst (return_df_from_sql_script (fun _ => inr (lit "SELECT 1"))
         (lit "script.sql") (failing_at 0 (ExaError (lit "syntax error")))
         (fresh tt)) = Ok None.
Proof.
  destruct (return_df_from_sql_script_swallows_failure
              (fun _ => inr (lit "SELECT 1")) (lit "script.sql")
              (failing_at 0 (ExaError (lit "syntax error"))) (fresh tt))
    as [_ [_ A]].
  destruct (A (lit "SELECT 1") (ExaError (lit "syntax error"))) as [R _];
    [reflexivity | reflexivity | reflexivity | exact R].
Defined.

(** X10. On a readable script [execute_sql_script] shows the same face
    whether the execution succeeded or raised an [Exception]: it returns
    normally after the one request, prints nothing and leaves the caller's
    object alone; a failure is visible in the log only. *)
Theorem execute_sql_script_hides_failure {H : Type}
    (read_file : str -> exn + str) (filename query : str) (exa_conn : connection)
    (w : world H) :
  let run := execute_sql_script read_file filename exa_conn w in
  read_file filename = inr query ->
  (forall e, on_execute exa_conn (calls w) query = Some e -> is_Exception e = true ->
     log (snd run)
     = log w ++ [lit "Couldn" ++ [apostrophe] ++ lit "t read the query. Error msg: "
                 ++ str_of_exn e])
  /\ (on_execute exa_conn (calls w) query = None -> log (snd run) = log w)
  /\ ((forall e, on_execute exa_conn (calls w) query = Some e -> is_Exception e = true) ->
      fst run = Ok tt
      /\ calls (snd run) = calls w ++ [Execute query]
      /\ stdout (snd run) = stdout w /\ heap (snd run) = heap w).
Proof.
  intros run Hq. subst run.
  unfold execute_sql_script, read_script, try_except, bind, get_logger, lift, ret,
    execute, log_info.
  rewrite Hq. cbn [registered calls]. split; [|split].
  - intros e E1 E2. now rewrite E1, E2.
  - intros E. now rewrite E.
  - intros A. destruct (on_execute exa_conn (calls w) query) as [e|] eqn:E.
    + rewrite (A e eq_refl). cbn. auto.
    + cbn. auto.
Qed.

Lemma execute_sql_script_hides_failure_witness :
  fst (execute_sql_script (fun _ => inr (lit "DELETE FROM T"))
         (lit "script.sql") (failing_at 0 (ExaError (lit "syntax error")))
         (fresh tt)) = Ok tt.
Proof.
  destruct (execute_sql_script_hides_failure
              (fun _ => inr (lit "DELETE FROM T")) (lit "script.sql")
              (lit "DELETE FROM T") (failing_at 0 (ExaError (lit "syntax error")))
              (fresh tt) eq_refl) as [_ [_ A]].
  destruct A as [R _]; [|exact R].
  intros e E. vm_compute in E. now injection E as <-.
Defined.

(** ** [set_logging] *)

Lemma loggers_get_In (items : list (str * logger)) (name : str) (lg : logger) :
  loggers_get items name = Some lg -> In (name, lg) items.
Proof.
  induction items as [|[k l] items IH]; [discriminate|].
  cbn [loggers_get]. destruct (str_eqb name k) eqn:E.
  - intros [= ->]. apply str_eqb_eq in E. subst. now left.
  - intros G. right. auto.
Qed.

Lemma loggers_get_None (items : list (str * logger)) (name : str) :
  loggers_get items name = None -> ~ In name (map fst items).
Proof.
  induction items as [|[k l] items IH]; [auto|].
  cbn [loggers_get map fst]. destruct (str_eqb name k) eqn:E; [discriminate|].
  intros G [K|K]; [apply str_eqb_neq in E; congruence | now apply IH].
Qed.

Lemma loggers_get_Some (items : list (str * logger)) (name : str) :
  In name (map fst items) -> exists lg, loggers_get items name = Some lg.
Proof.
  intros K. destruct (loggers_get items name) as [lg|] eqn:E; [now exists lg|].
  now apply loggers_get_None in E.
Qed.

Lemma set_logging_consistent (name : str) (st : logging_state) :
  consistent st -> consistent (snd (set_logging name st)).
Proof.
  intros [S [D P]]. unfold set_logging.
  destruct (loggers_get (loggers st) name) as [lg|] eqn:E; cbn [snd].
  - now repeat split.
  - apply loggers_get_None in E. repeat split; cbn [loggers set_up].
    + rewrite S, !map_app. reflexivity.
    + rewrite map_app. apply NoDup_app; [exact D | repeat constructor; auto |].
      intros a Ha [<-|[]]. contradiction.
    + intros k lg K. apply in_app_or in K as [K|[[= <- <-]|[]]]; [eauto | reflexivity].
Qed.

Lemma after_calls_consistent (names : list str) (st : logging_state) :
  consistent st -> consistent (after_calls names st).
Proof.
  revert st. induction names as [|n names IH]; intros st C; [exact C|].
  apply IH. now apply set_logging_consistent.
Qed.

Lemma set_logging_keeps (name k : str) (st : logging_state) :
  In k (map fst (loggers st)) -> In k (map fst (loggers (snd (set_logging name st)))).
Proof.
  intros K. unfold set_logging. destruct (loggers_get (loggers st) name); cbn [snd loggers].
  - exact K.
  - rewrite map_app. apply in_or_app. now left.
Qed.

Lemma set_logging_registers (name : str) (st : logging_state) :
  In name (map fst (loggers (snd (set_logging name st)))).
Proof.
  unfold set_logging. destruct (loggers_get (loggers st) name) as [lg|] eqn:E;
    cbn [snd loggers].
  - apply loggers_get_In in E. apply in_map_iff. now exists (name, lg).
  - rewrite map_app. apply in_or_app. right. now left.
Qed.

Lemma after_calls_keeps (names : list str) (k : str) (st : logging_state) :
  In k (map fst (loggers st)) -> In k (map fst (loggers (after_calls names st))).
Proof.
  revert st. induction names as [|n names IH]; intros st K; [exact K|].
  apply IH. now apply set_logging_keeps.
Qed.

Lemma after_calls_registers (names : list str) (name : str) (st : logging_state) :
  In name names -> In name (map fst (loggers (after_calls names st))).
Proof.
  revert st. induction names as [|n names IH]; intros st K; [destruct K|].
  destruct K as [->|K]; cbn [after_calls fold_left].
  - apply after_calls_keeps, set_logging_registers.
  - now apply IH.
Qed.

Lemma consistent_set_up (st : logging_state) :
  consistent st -> set_up st = map Logger (map fst (loggers st)).
Proof.
  intros [S [_ P]]. rewrite S, map_map. apply map_ext_in.
  intros [k lg] K. cbn [fst snd]. exact (P k lg K).
Qed.

(** X11. Starting from the empty module dict, after any sequence of calls
    of [set_logging] the set-up block has run exactly once for every name
    called, however often it was called: there are as many set-ups as dict
    entries, and one more call with a name already seen returns its logger
    and changes nothing. *)
Theorem set_logging_sets_up_once (names : list str) (name : str) :
  let st := after_calls names no_loggers in
  In name names ->
  count_occ logger_eq_dec (set_up st) (Logger name) = 1%nat
  /\ length (set_up st) = length (loggers st)
  /\ set_logging name st = (Logger name, st).
Proof.
  intros st K. subst st.
  assert (C : consistent (after_calls names no_loggers)).
  { apply after_calls_consistent. repeat split; [constructor | intros k lg []]. }
  pose proof (after_calls_registers names name no_loggers K) as R.
  split; [|split].
  - rewrite (consistent_set_up _ C).
    rewrite <- (count_occ_map Logger str_eq_dec logger_eq_dec).
    + destruct C as [_ [D _]]. now apply (NoDup_count_occ' str_eq_dec).
    + now intros x y [= ->].
  - destruct C as [S _]. now rewrite S, length_map.
  - unfold set_logging. destruct (loggers_get_Some _ _ R) as [lg G]. rewrite G.
    destruct C as [_ [_ P]]. now rewrite (P name lg (loggers_get_In _ _ _ G)).
Qed.

Lemma set_logging_sets_up_once_witness :
  count_occ logger_eq_dec
    (set_up (after_calls [lit "logger"; lit "audit"; lit "logger"; lit "logger"]
               no_loggers))
    (Logger (lit "logger")) = 1%nat.
Proof.
  destruct (set_logging_sets_up_once
              [lit "logger"; lit "audit"; lit "logger"; lit "logger"] (lit "logger"))
    as [A _]; [now left | exact A].
Defined.

(** ** What a failed call leaves behind *)

Lemma format_scan_lone_close (kw : list (str * str)) (pre rest : str) :
  plain pre = true ->
  hd_error rest <> Some rbrace ->
  format_scan kw Text (pre ++ rbrace :: rest) = Raise FormatError.
Proof.
  intros P Hr. rewrite format_scan_plain by assumption.
  assert (E : format_scan kw Text (rbrace :: rest) = Raise FormatError).
  { cbn [format_scan]. change (rbrace =? lbrace) with false.
    change (rbrace =? rbrace) with true. cbv iota.
    destruct rest as [|c rest]; [reflexivity|].
    cbn [format_scan]. destruct (N.eqb_spec c rbrace) as [->|_]; [|reflexivity].
    now elim Hr. }
  now rewrite E.
Qed.

Lemma positions_absent (label : str) (labels : list str) (i : nat) :
  ~ In label labels -> positions label labels i = [].
Proof.
  revert i. induction labels as [|l labels IH]; intros i H; [reflexivity|].
  cbn [positions]. destruct (str_eqb label l) eqn:E.
  - apply str_eqb_eq in E. subst. elim H. now left.
  - apply IH. intros K. apply H. now right.
Qed.

(** X12. When the first name of the key string holds a closing brace that
    is not doubled, after a brace-free beginning, [merge_tmp_into_target_tbl]
    raises the error of [format]; by then the staging table has been
    truncated and loaded and the labels of the dataframe stripped, and no
    MERGE statement is sent. *)
Theorem merge_lone_brace_fails_after_load (conn : connection) (df : DataFrame)
    (pk schema tbl : str) (temp_schema temp_tbl : option str)
    (before after : str) (others : list str) :
  let sch := staging_schema schema temp_schema in
  let tab := staging_table tbl temp_tbl in
  let run :=
    merge_tmp_into_target_tbl conn pk schema tbl temp_schema temp_tbl (fresh df) in
  pk_list pk = (before ++ rbrace :: after) :: others ->
  plain before = true ->
  hd_error after <> Some rbrace ->
  loads conn df sch tab ->
  fst run = Raise FormatError
  /\ calls (snd run) = [truncate_call sch tab; ImportFromPandas df sch tab]
  /\ heap (snd run) = set_columns df (map strip (columns df)).
Proof.
  intros sch tab run Hpk Hb Ha L. subst sch tab run.
  assert (S : merge_statement pk schema tbl temp_schema temp_tbl (columns df)
              = Raise FormatError).
  { unfold merge_statement, format. rewrite template_shape.
    - rewrite format_head. rewrite Hpk. unfold on_clause.
      rewrite join_cons_map. unfold on_conjunct at 1. rewrite <- !app_assoc.
      rewrite (app_assoc (lit "ON (")), (app_assoc _ before).
      cbn [app]. rewrite format_scan_lone_close; [reflexivity | |].
      + now rewrite !plain_app, Hb.
      + destruct after as [|c after']; [discriminate | exact Ha].
    - apply pk_list_not_nil.
    - apply pk_list_trimmed.
    - apply Forall_forall. intros c Hc. apply in_map_iff in Hc as [x [E _]].
      subst. apply strip_idempotent. }
  assert (N : forall s, merge_statement pk schema tbl temp_schema temp_tbl (columns df)
                        <> Ok s) by (intros s; rewrite S; discriminate).
  destruct (merge_format_fails conn df pk schema tbl temp_schema temp_tbl L N)
    as [A [B C]].
  rewrite S in A. auto.
Qed.

Lemma merge_lone_brace_fails_after_load_witness :
  fst (merge_tmp_into_target_tbl friendly (lit "ID}, CATEGORY") (lit "STAGE") (lit "T")
         None None (fresh brands)) = Raise FormatError.
Proof.
  destruct (merge_lone_brace_fails_after_load friendly brands (lit "ID}, CATEGORY")
              (lit "STAGE") (lit "T") None None (lit "ID") [] [lit "CATEGORY"])
    as [A _];
    [reflexivity | reflexivity | discriminate | split; reflexivity | exact A].
Defined.

(** X13. When the count query comes back without a row, or without a column
    [COUNT_ROWS], the call raises the lookup error after the MERGE statement
    has been executed: the four requests have all been sent. *)
Theorem merge_count_lookup_fails_after_merge (conn : connection) (df : DataFrame)
    (pk schema tbl : str) (temp_schema temp_tbl : option str) (check_df : DataFrame) :
  let sch := staging_schema schema temp_schema in
  let tab := staging_table tbl temp_tbl in
  let run :=
    merge_tmp_into_target_tbl conn pk schema tbl temp_schema temp_tbl (fresh df) in
  let statement :=
    merge_text schema tbl sch tab (pk_list pk) (cols_to_merge (pk_list pk) (columns df)) in
  let sent_before :=
    [truncate_call sch tab; ImportFromPandas df sch tab; Execute statement] in
  Forall (fun c => plain c = true) (pk_list pk) ->
  Forall (fun c => plain c = true) (map strip (columns df)) ->
  loads conn df sch tab ->
  on_execute conn [truncate_call sch tab; ImportFromPandas df sch tab] statement = None ->
  on_export conn sent_before
    (lit "SELECT COUNT(*) AS COUNT_ROWS FROM " ++ schema ++ lit "." ++ tbl ++ lit " "
     ++ [10]
     ++ lit "                                    WHERE TO_DATE(UPDATE_TIMESTAMP) = CURRENT_DATE;")
  = inr check_df ->
  rows check_df = [] \/ ~ In (lit "COUNT_ROWS") (columns check_df) ->
  fst run = Raise LookupError
  /\ calls (snd run) = sent_before ++ [count_call schema tbl].
Proof.
  intros sch tab run statement sent_before Hp Hl L He Hc Hf.
  subst sch tab run statement sent_before.
  pose proof (merge_statement_text pk schema tbl temp_schema temp_tbl (columns df) Hp Hl)
    as S.
  destruct (merge_counted conn df pk schema tbl temp_schema temp_tbl _ check_df
              L S He Hc) as [A [B _]].
  split; [|exact B]. rewrite A.
  unfold frame_item0. destruct Hf as [Hf|Hf].
  - rewrite Hf. now destruct (positions (lit "COUNT_ROWS") (columns check_df) 0)
      as [|j [|? ?]].
  - now rewrite (positions_absent _ _ 0 Hf).
Qed.

Lemma merge_count_lookup_fails_after_merge_witness :
  fst (merge_tmp_into_target_tbl empty_count (lit "BRAND, CATEGORY") (lit "STAGE")
         (lit "T") None None (fresh brands)) = Raise LookupError.
Proof.
  destruct (merge_count_lookup_fails_after_merge empty_count brands
              (lit "BRAND, CATEGORY") (lit "STAGE") (lit "T") None None
              {| columns := [lit "COUNT_ROWS"]; rows := [] |}) as [A _].
  - vm_compute. repeat constructor.
  - vm_compute. repeat constructor.
  - split; reflexivity.
  - reflexivity.
  - reflexivity.
  - left. reflexivity.
  - exact A.
Defined.

(** ** The Slack message *)

Lemma below_bound (n : nat) (P : N -> bool) :
  forallb P (map N.of_nat (seq 0 n)) = true ->
  forall x, x < N.of_nat n -> P x = true.
Proof.
  intros F x Hx. rewrite forallb_forall in F. apply F.
  apply in_map_iff. exists (N.to_nat x). split; [apply N2Nat.id|].
  apply in_seq. lia.
Qed.

Lemma hex_value_digit (d : N) : d < 16 -> hex_value (hex_digit d) = Some d.
Proof.
  intros H.
  apply (below_bound 16 (fun d => match hex_value (hex_digit d) with
                                  | Some e => e =? d
                                  | None => false
                                  end)) in H; [|reflexivity].
  destruct (hex_value (hex_digit d)) as [e|]; [|discriminate].
  apply N.eqb_eq in H. now subst.
Qed.

Lemma lor_high (x : N) : x < 1024 -> N.lor 55296 x = 55296 + x.
Proof.
  intros H.
  apply (below_bound 1024 (fun x => N.lor 55296 x =? 55296 + x)) in H;
    [now apply N.eqb_eq | vm_compute; reflexivity].
Qed.

Lemma lor_low (x : N) : x < 1024 -> N.lor 56320 x = 56320 + x.
Proof.
  intros H.
  apply (below_bound 1024 (fun x => N.lor 56320 x =? 56320 + x)) in H;
    [now apply N.eqb_eq | vm_compute; reflexivity].
Qed.

Lemma hex4_digits (n : N) :
  n < 65536 ->
  16 * (16 * (16 * (16 * 0 + n / 4096 mod 16) + n / 256 mod 16) + n / 16 mod 16)
  + n mod 16 = n.
Proof.
  intros H.
  pose proof (N.div_mod n 16) as E0.
  pose proof (N.div_mod (n / 16) 16) as E1.
  pose proof (N.div_mod (n / 256) 16) as E2.
  replace (n / 16 / 16) with (n / 256) in E1 by (now rewrite N.Div0.div_div).
  replace (n / 256 / 16) with (n / 4096) in E2 by (now rewrite N.Div0.div_div).
  assert (L : n / 4096 < 16) by (apply N.Div0.div_lt_upper_bound; exact H).
  rewrite (N.mod_small (n / 4096) 16 L).
  lia.
Qed.

Lemma hex_digit_printable (d : N) :
  d < 16 -> (32 <=? hex_digit d) && (hex_digit d <=? 126) = true.
Proof.
  intros H.
  now apply (below_bound 16 (fun d => (32 <=? hex_digit d) && (hex_digit d <=? 126))) in H.
Qed.

Lemma hex4_printable (n : N) : forallb printable (hex4 n) = true.
Proof.
  unfold hex4. cbn [forallb]. unfold printable.
  rewrite !hex_digit_printable; [reflexivity | | | |]; apply N.mod_lt; discriminate.
Qed.

Lemma json_escape_printable (c : N) : forallb printable (json_escape c) = true.
Proof.
  unfold json_escape.
  repeat match goal with
         | |- forallb _ (if ?b then _ else _) = true => destruct b eqn:?; [reflexivity|]
         end.
  destruct ((32 <=? c) && (c <=? 126)) eqn:P.
  - cbn [forallb]. unfold printable. now rewrite P.
  - destruct (c <? 65536).
    + cbn [app forallb]. now rewrite hex4_printable.
    + cbv zeta. rewrite !forallb_app, !hex4_printable. reflexivity.
Qed.

Lemma json_read_hex4 (n : N) (high : option N) (tail : str) :
  n < 65536 ->
  json_read (JHex 3 0 high) (hex4 n ++ tail)
  = match high with
    | None =>
        if is_high n then json_read (JLow1 n) tail
        else if is_low n then None
        else push n (json_read JText tail)
    | Some h =>
        if is_low n then
          push (65536 + (h - 55296) * 1024 + (n - 56320)) (json_read JText tail)
        else None
    end.
Proof.
  intros H. unfold hex4. cbn [app json_read].
  rewrite !hex_value_digit by (apply N.mod_lt; discriminate).
  cbv zeta. now rewrite (hex4_digits n H).
Qed.

Lemma json_read_u (s : str) :
  json_read JText (92 :: 117 :: s) = json_read (JHex 3 0 None) s.
Proof. reflexivity. Qed.

Lemma json_read_low_u (h : N) (s : str) :
  json_read (JLow1 h) (92 :: 117 :: s) = json_read (JHex 3 0 (Some h)) s.
Proof. reflexivity. Qed.

Lemma json_read_escape (c : N) (tail : str) :
  is_scalar c = true ->
  json_read JText (json_escape c ++ tail) = push c (json_read JText tail).
Proof.
  intros S. unfold json_escape.
  destruct (N.eqb_spec c 92) as [->|N92]; [reflexivity|].
  destruct (N.eqb_spec c 34) as [->|N34]; [reflexivity|].
  destruct (N.eqb_spec c 8) as [->|N8]; [reflexivity|].
  destruct (N.eqb_spec c 12) as [->|N12]; [reflexivity|].
  destruct (N.eqb_spec c 10) as [->|N10]; [reflexivity|].
  destruct (N.eqb_spec c 13) as [->|N13]; [reflexivity|].
  destruct (N.eqb_spec c 9) as [->|N9]; [reflexivity|].
  unfold is_scalar in S. apply andb_true_iff in S as [S1 S2].
  apply N.ltb_lt in S1. apply negb_true_iff in S2.
  assert (NS : c < 55296 \/ 57343 < c).
  { destruct (N.leb_spec 55296 c); [|now left].
    destruct (N.leb_spec c 57343); [discriminate S2 | now right]. }
  clear S2.
  destruct ((32 <=? c) && (c <=? 126)) eqn:P.
  - apply andb_true_iff in P as [P1 P2]. apply N.leb_le in P1.
    cbn [app json_read].
    rewrite (proj2 (N.eqb_neq c 34) N34), (proj2 (N.eqb_neq c 92) N92).
    destruct (N.ltb_spec c 32); [lia | reflexivity].
  - destruct (N.ltb_spec c 65536) as [L|L].
    + cbn [app]. rewrite json_read_u, (json_read_hex4 c None tail L).
      assert (H : is_high c = false).
      { unfold is_high. destruct (N.leb_spec 55296 c), (N.leb_spec c 56319);
          try reflexivity. lia. }
      assert (W : is_low c = false).
      { unfold is_low. destruct (N.leb_spec 56320 c), (N.leb_spec c 57343);
          try reflexivity. lia. }
      now rewrite H, W.
    + cbv zeta.
      assert (B : c - 65536 < 1048576) by lia.
      set (n := c - 65536) in *.
      assert (Q : n / 1024 < 1024) by (apply N.Div0.div_lt_upper_bound; exact B).
      assert (R : n mod 1024 < 1024) by (apply N.mod_lt; discriminate).
      assert (E1 : N.lor 55296 (N.land (N.shiftr n 10) 1023) = 55296 + n / 1024).
      { rewrite N.shiftr_div_pow2. change (2 ^ 10) with 1024.
        change 1023 with (N.ones 10). rewrite N.land_ones. change (2 ^ 10) with 1024.
        rewrite (N.mod_small _ _ Q). now apply lor_high. }
      assert (E2 : N.lor 56320 (N.land n 1023) = 56320 + n mod 1024).
      { change 1023 with (N.ones 10). rewrite N.land_ones. change (2 ^ 10) with 1024.
        now apply lor_low. }
      rewrite E1, E2. rewrite <- !app_assoc.
      assert (D : n = 1024 * (n / 1024) + n mod 1024) by (apply N.div_mod; discriminate).
      set (q := n / 1024) in *. set (r := n mod 1024) in *.
      cbn [app]. rewrite json_read_u, json_read_hex4 by lia.
      assert (H : is_high (55296 + q) = true).
      { unfold is_high. apply andb_true_iff. split; apply N.leb_le; lia. }
      rewrite H. rewrite json_read_low_u, json_read_hex4 by lia.
      assert (W : is_low (56320 + r) = true).
      { unfold is_low. apply andb_true_iff. split; apply N.leb_le; lia. }
      rewrite W. f_equal. subst n. lia.
Qed.

Lemma json_read_string (s rest : str) :
  forallb is_scalar s = true ->
  json_read JText (concat (map json_escape s) ++ dquote :: rest) = Some (s, rest).
Proof.
  induction s as [|c s IH]; intros H; [reflexivity|].
  cbn [forallb] in H. apply andb_true_iff in H as [Hc Hs].
  cbn [map concat]. rewrite <- app_assoc, (json_read_escape c _ Hc), (IH Hs).
  reflexivity.
Qed.

Lemma json_dumps_message_printable (channel text : str) :
  forallb printable (json_dumps_message channel text) = true.
Proof.
  assert (B : forall s, forallb printable (concat (map json_escape s)) = true).
  { induction s as [|c s IH]; [reflexivity|].
    cbn [map concat]. now rewrite forallb_app, json_escape_printable, IH. }
  unfold json_dumps_message, encode_basestring_ascii.
  rewrite !forallb_app, !B. reflexivity.
Qed.

Lemma json_dumps_message_encodes (channel text : str) :
  encode_utf8 (json_dumps_message channel text) = Ok (json_dumps_message channel text).
Proof.
  unfold encode_utf8.
  assert (A : forallb (fun c => c <? 128) (json_dumps_message channel text) = true).
  { pose proof (json_dumps_message_printable channel text) as P.
    rewrite forallb_forall in *. intros c Hc. specialize (P c Hc).
    unfold printable in P. apply andb_true_iff in P as [_ P].
    apply N.leb_le in P. apply N.ltb_lt. lia. }
  now rewrite A.
Qed.

(** X14. The body that [send_slack_alert] posts for a channel and a text is
    printable ASCII throughout, and for strings of characters (code points in
    range, no surrogates) it reads back as the JSON object with exactly that
    channel and that text: quotes, backslashes, control characters and
    characters outside ASCII are escaped. *)
Theorem slack_message_round_trip (channel text : str) :
  forallb is_scalar channel = true ->
  forallb is_scalar text = true ->
  forallb printable (json_dumps_message channel text) = true
  /\ read_message (json_dumps_message channel text) = Some (channel, text).
Proof.
  intros Hc Ht. split; [apply json_dumps_message_printable|].
  unfold read_message, json_dumps_message, encode_basestring_ascii.
  rewrite <- !app_assoc.
  change (qlit "{'channel': " ++ [dquote] ++ ?r) with (qlit "{'channel': '" ++ r).
  rewrite expect_app. cbn [app]. rewrite (json_read_string channel _ Hc).
  change (qlit ", 'text': " ++ dquote :: ?r) with (qlit ", 'text': '" ++ r).
  rewrite expect_app. rewrite (json_read_string text _ Ht). reflexivity.
Qed.

Lemma slack_message_round_trip_witness :
  read_message
    (json_dumps_message (lit "#alerts") (qlit "load 'orders' failed: 50% \ done"))
  = Some (lit "#alerts", qlit "load 'orders' failed: 50% \ done").
Proof.
  destruct (slack_message_round_trip (lit "#alerts")
              (qlit "load 'orders' failed: 50% \ done")) as [_ A];
    [reflexivity | reflexivity | exact A].
Defined.

(** X15. Once the request object is built, [send_slack_alert] posts exactly
    one request, with the JSON body of the message.  An [HTTPError] or a
    [URLError] is never raised: the call returns, one error line carries the
    code and the reason, and nothing is logged as posted.  Success logs the
    channel; only a failure of another kind is raised. *)
Theorem send_slack_alert_swallows_http_errors
    (request_error : str -> option str)
    (urlopen : list (str * str) -> str -> str -> http_answer)
    (hook_url slack_channel slack_msg_text : str) (w : slack_world) :
  let run :=
    send_slack_alert request_error urlopen hook_url slack_channel slack_msg_text w in
  let data := json_dumps_message slack_channel slack_msg_text in
  request_error hook_url = None ->
  fst run <> OutsideModel
  /\ requests (snd run) = requests w ++ [(hook_url, data)]
  /\ (forall text, urlopen (requests w) hook_url data = OtherError text <->
                   fst run = Propagated text)
  /\ (urlopen (requests w) hook_url data = Posted ->
      info_lines (snd run) = info_lines w ++ [lit "Message posted to " ++ slack_channel]
      /\ error_lines (snd run) = error_lines w)
  /\ (forall code reason,
        urlopen (requests w) hook_url data = HTTPError code reason ->
        fst run = Done /\ info_lines (snd run) = info_lines w
        /\ error_lines (snd run)
           = error_lines w ++ [lit "Request failed: "
                               ++ lit (NilEmpty.string_of_int (Z.to_int code))
                               ++ lit " " ++ reason])
  /\ (forall reason,
        urlopen (requests w) hook_url data = URLError reason ->
        fst run = Done /\ info_lines (snd run) = info_lines w
        /\ error_lines (snd run)
           = error_lines w ++ [lit "Server connection failed: " ++ reason]).
Proof.
  intros run data Hr. subst run data. unfold send_slack_alert.
  cbv zeta. cbn [requests info_lines error_lines].
  rewrite json_dumps_message_encodes, Hr.
  destruct (urlopen (requests w) hook_url
              (json_dumps_message slack_channel slack_msg_text)) as [|code reason|reason|text];
    cbn [fst snd requests info_lines error_lines];
    repeat split; intros; try discriminate; congruence.
Qed.

Lemma send_slack_alert_swallows_http_errors_witness :
  let run :=
    send_slack_alert (fun _ => None)
      (fun _ _ _ => HTTPError 404 (lit "Not Found"))
      (lit "https://hooks.slack.com/services/T0/B0/x") (lit "#alerts")
      (lit "load failed")
      {| requests := []; info_lines := []; error_lines := []; slack_loggers := no_loggers |} in
  fst run = Done /\ error_lines (snd run) = [lit "Request failed: 404 Not Found"].
Proof.
  intros run. subst run.
  destruct (send_slack_alert_swallows_http_errors (fun _ => None)
              (fun _ _ _ => HTTPError 404 (lit "Not Found"))
              (lit "https://hooks.slack.com/services/T0/B0/x") (lit "#alerts")
              (lit "load failed")
      {| requests := []; info_lines := []; error_lines := []; slack_loggers := no_loggers |}
              eq_refl) as [_ [_ [_ [_ [A _]]]]].
  destruct (A 404%Z (lit "Not Found") eq_refl) as [R [_ E]].
  split; [exact R | exact E].
Defined.

(** ** Key strings, put together *)





(** ** The log of a merge *)

Section MergeLog.

Variable conn : connection.
Variable df : DataFrame.
Variables pk schema tbl : str.
Variables temp_schema temp_tbl : option str.

Local Notation run :=
  (merge_tmp_into_target_tbl conn pk schema tbl temp_schema temp_tbl (fresh df)).
Local Notation completed :=
  (lit "-------------- MERGE TO " ++ schema ++ lit "." ++ tbl
   ++ lit " COMPLETE -----------------------").

Lemma merge_log_cases :
  (fst run = Ok tt /\ exists before, log (snd run) = before ++ [completed])
  \/ (fst run <> Ok tt
      /\ (length (log (snd run)) <= 3)%nat
      /\ forall line, In line (log (snd run)) ->
           hd_error line = Some 84 \/ hd_error line = Some 68 \/ hd_error line = Some 83).
Proof.
  unfold merge_tmp_into_target_tbl, bind, get_logger, registered, log_info, execute,
    get_heap, import_from_pandas, modify_heap, lift, export_to_pandas, fresh, sent.
  cbn [calls log stdout heap registry app fst snd columns set_columns].
  destruct (on_execute conn [] _) as [e|].
  { right. cbn [fst snd log]. split; [discriminate|]. split; [cbn; lia|].
    intros line [<-|[]]. now left. }
  cbn [calls log stdout heap app fst snd columns set_columns].
  destruct (on_import conn _ df _ _) as [e|].
  { right. cbn [fst snd log]. split; [discriminate|]. split; [cbn; lia|].
    intros line [<-|[]]. now left. }
  cbn [calls log stdout heap app fst snd columns set_columns].
  assert (F : forall (w : world DataFrame) (o : outcome unit),
            o <> Ok tt ->
            log w = [lit "Truncating table: "
                     ++ staging_schema schema temp_schema ++ lit "."
                     ++ staging_table tbl temp_tbl;
                     lit "Data loaded successfully to the Temp table - "
                     ++ staging_schema schema temp_schema ++ lit "."
                     ++ staging_table tbl temp_tbl;
                     lit "Start merging..."] ->
            (fst (o, w) = Ok tt /\ exists before, log (snd (o, w)) = before ++ [completed])
            \/ (fst (o, w) <> Ok tt
                /\ (length (log (snd (o, w))) <= 3)%nat
                /\ forall line, In line (log (snd (o, w))) ->
                     hd_error line = Some 84 \/ hd_error line = Some 68
                     \/ hd_error line = Some 83)).
  { intros w o No Lw. right. cbn [fst snd]. split; [exact No|]. rewrite Lw.
    split; [cbn; lia|]. intros line [<-|[<-|[<-|[]]]]; auto. }
  destruct (format _ _) as [s| |];
    [|apply F; [discriminate | reflexivity] | apply F; [discriminate | reflexivity]].
  cbn [calls log stdout heap app fst snd].
  destruct (on_execute conn _ s) as [e|]; [apply F; [discriminate | reflexivity]|].
  cbn [calls log stdout heap app fst snd].
  destruct (on_export conn _ _) as [e|check_df]; [apply F; [discriminate | reflexivity]|].
  cbn [calls log stdout heap app fst snd].
  destruct (frame_item0 check_df (lit "COUNT_ROWS")) as [v|e|];
    [|apply F; [discriminate | reflexivity] | apply F; [discriminate | reflexivity]].
  left. cbn [fst snd log]. split; [reflexivity|].
  eexists [_; _; _; _]. reflexivity.
Qed.

End MergeLog.

(** X17. The line [MERGE TO schema.table COMPLETE] is in the log of a call
    exactly when the call returned normally, and then it is the last line: a
    call that raised, at whatever step, has not logged it. *)
Theorem merge_logs_completion_on_success_only (conn : connection) (df : DataFrame)
    (pk schema tbl : str) (temp_schema temp_tbl : option str) :
  let run :=
    merge_tmp_into_target_tbl conn pk schema tbl temp_schema temp_tbl (fresh df) in
  let completed :=
    lit "-------------- MERGE TO " ++ schema ++ lit "." ++ tbl
    ++ lit " COMPLETE -----------------------" in
  (fst run = Ok tt <-> In completed (log (snd run)))
  /\ (fst run = Ok tt -> last (log (snd run)) [] = completed).
Proof.
  intros run completed. subst run completed.
  destruct (merge_log_cases conn df pk schema tbl temp_schema temp_tbl)
    as [[R [before E]] | [R [_ H]]].
  - rewrite E. split.
    + split; [intros _ | intros _; exact R]. apply in_or_app. right. now left.
    + intros _. apply last_last.
  - split.
    + split; [intros K; now elim R | intros K]. exfalso.
      destruct (H _ K) as [A|[A|A]]; discriminate A.
    + intros K. now elim R.
Qed.

Lemma merge_logs_completion_on_success_only_witness :
  last (log (snd (merge_tmp_into_target_tbl friendly (lit "BRAND, CATEGORY")
                    (lit "STAGE") (lit "T") None None (fresh brands)))) []
  = lit "-------------- MERGE TO STAGE.T COMPLETE -----------------------".
Proof.
  destruct (merge_logs_completion_on_success_only friendly brands
              (lit "BRAND, CATEGORY") (lit "STAGE") (lit "T") None None) as [_ A].
  apply A. reflexivity.
Defined.
